(** * Dozzle: the docker log-event types and the remote agent server

    A shallow embedding of [internal/docker/types.go] and of the agent's
    gRPC server (package [agent]), with the properties of the design
    document stated over it.

    Conventions.
    - Go's [int64] is a [Z] with the wrap-around of the machine written
      out ([int64_wrap]); [uint32] and enum numbers are plain [Z].
    - A Go [string] is a [string]; a [[]byte] is a [list Byte.byte].
    - A Go [error] value is [option err]: [None] is [nil].
    - A pointer that the code may receive as [nil] is an [option].
    - Collaborators that the server only reaches through an interface
      (the docker client, the container store, a log reader, the gRPC
      output stream, the event generator's channels) are records of what
      they answer; every call made on them is written to a trace. *)

From Stdlib Require Import ZArith Lia.
From stdpp Require Import base option list strings gmap.

Local Open Scope Z_scope.

(** ** Machine integers and the float conversion used on them *)

Definition int64_min : Z := - 2 ^ 63.
Definition int64_max : Z := 2 ^ 63 - 1.

Definition in_int64 (z : Z) : Prop := int64_min <= z <= int64_max.

(** Two's complement reduction of an integer to 64 bits. *)
Definition int64_wrap (z : Z) : Z := (z + 2 ^ 63) mod 2 ^ 64 - 2 ^ 63.

(** [a - b] on [int64]. *)
Definition int64_sub (a b : Z) : Z := int64_wrap (a - b).

(** [float64(x)] for an integer [x]: the nearest binary64 number, ties to
    even.  A binary64 number reached from an integer is itself an integer,
    so the result is given by its exact value.  Up to 53 bits the
    conversion is exact; above, the magnitude keeps its 53 leading bits and
    is rounded on the bits dropped. *)
Definition float64_of_int (x : Z) : Z :=
  let a := Z.abs x in
  if a <? 2 ^ 53 then x
  else
    let e := Z.log2 a - 52 in
    let q := a / 2 ^ e in
    let r := a mod 2 ^ e in
    let half := 2 ^ (e - 1) in
    let q' :=
      if r <? half then q
      else if half <? r then q + 1
      else if Z.even q then q else q + 1 in
    Z.sgn x * (q' * 2 ^ e).

(** [math.Abs] on such a value. *)
Definition math_Abs (f : Z) : Z := Z.abs f.

(** ** Errors, gRPC status and the ways a call can end *)

(** [codes.Code]. *)
Inductive code :=
| OK | Canceled | Unknown | InvalidArgument | DeadlineExceeded | NotFound
| AlreadyExists | PermissionDenied | ResourceExhausted | FailedPrecondition
| Aborted | OutOfRange | Unimplemented | Internal | Unavailable | DataLoss
| Unauthenticated.

Definition code_String (c : code) : string :=
  match c with
  | OK => "OK" | Canceled => "Canceled" | Unknown => "Unknown"
  | InvalidArgument => "InvalidArgument"
  | DeadlineExceeded => "DeadlineExceeded" | NotFound => "NotFound"
  | AlreadyExists => "AlreadyExists"
  | PermissionDenied => "PermissionDenied"
  | ResourceExhausted => "ResourceExhausted"
  | FailedPrecondition => "FailedPrecondition"
  | Aborted => "Aborted" | OutOfRange => "OutOfRange"
  | Unimplemented => "Unimplemented" | Internal => "Internal"
  | Unavailable => "Unavailable" | DataLoss => "DataLoss"
  | Unauthenticated => "Unauthenticated"
  end.

(** A Go error value that is not [nil]: either a plain error (made by
    [fmt.Errorf], [io.EOF], or whatever a collaborator hands back), known by
    its message, or a gRPC status error. *)
Inductive err :=
| errorString (msg : string)
| statusError (c : code) (msg : string).

Definition error := option err.

(** [err.Error()]. *)
Definition Error (e : err) : string :=
  match e with
  | errorString msg => msg
  | statusError c msg =>
      "rpc error: code = " +:+ code_String c +:+ " desc = " +:+ msg
  end.

(** [status.Error(c, msg)]: no error at all for [codes.OK]. *)
Definition status_Error (c : code) (msg : string) : error :=
  match c with
  | OK => None
  | _ => Some (statusError c msg)
  end.

(** [status.Code(err)]: what a gRPC peer sees of an error. *)
Definition status_Code (e : error) : code :=
  match e with
  | None => OK
  | Some (statusError c _) => c
  | Some (errorString _) => Unknown
  end.

(** The conditions a unary operation of the agent is to answer with. *)
Definition classified (e : err) : bool :=
  match e with
  | statusError NotFound _ | statusError InvalidArgument _
  | statusError Internal _ => true
  | _ => false
  end.

(** A collaborator's [(value, error)] answer; the server looks at the value
    only when the error is [nil]. *)
Inductive result (A : Type) :=
| Ok (a : A)
| Fail (e : err).
Arguments Ok {A} a.
Arguments Fail {A} e.

(** ** Packages time and io *)

Module time.

(** [time.Time], as Unix seconds and the nanoseconds within the second. *)
Record Time := mkTime {
  unix_sec : Z;
  unix_nsec : Z
}.

(** [time.Time{}]: January 1 of year 1, 00:00:00 UTC. *)
Definition zero : Time := mkTime (-62135596800) 0.

(** [time.Unix(sec, nsec)]: nanoseconds outside [0, 1e9) are carried into
    the seconds; [/] of Go truncates. *)
Definition Unix (sec nsec : Z) : Time :=
  if (nsec <? 0) || (1000000000 <=? nsec) then
    let n := nsec ÷ 1000000000 in
    let sec := int64_wrap (sec + n) in
    let nsec := nsec - n * 1000000000 in
    if nsec <? 0
    then mkTime (int64_wrap (sec - 1)) (nsec + 1000000000)
    else mkTime sec nsec
  else mkTime sec nsec.

End time.

Module io.

(** [io.EOF]. *)
Definition EOF : err := errorString "EOF".

(** An [io.Reader], by what its successive [Read] calls answer: the bytes
    put in the buffer (their number is the [n] returned) and the error.
    Once the script is over, [Read] answers [0, io.EOF]. *)
Definition Reader := list (list Byte.byte * error).

End io.

(** ** Package unicode/utf8 *)

Module utf8.

Definition between (lo hi b : N) : bool := ((lo <=? b) && (b <=? hi))%N.

(** What the first byte of an encoding asks for: the number of bytes of
    the encoding and the range of its second byte; no size for a byte
    that cannot come first. *)
Definition first (b0 : N) : nat * N * N :=
  if between 194 223 b0 then (2%nat, 128%N, 191%N)
  else if (b0 =? 224)%N then (3%nat, 160%N, 191%N)
  else if between 225 236 b0 || between 238 239 b0 then (3%nat, 128%N, 191%N)
  else if (b0 =? 237)%N then (3%nat, 128%N, 159%N)
  else if (b0 =? 240)%N then (4%nat, 144%N, 191%N)
  else if between 241 243 b0 then (4%nat, 128%N, 191%N)
  else if (b0 =? 244)%N then (4%nat, 128%N, 143%N)
  else (0%nat, 0%N, 0%N).

(** [utf8.Valid]: whether the bytes are a sequence of well-formed
    encodings (no byte out of place, no overlong form, no surrogate,
    nothing above U+10FFFF). *)
Fixpoint Valid (p : list N) : bool :=
  match p with
  | [] => true
  | b0 :: p1 =>
      if (b0 <? 128)%N then Valid p1
      else
        match first b0, p1 with
        | (2%nat, lo, hi), b1 :: p2 => between lo hi b1 && Valid p2
        | (3%nat, lo, hi), b1 :: b2 :: p3 =>
            between lo hi b1 && between 128 191 b2 && Valid p3
        | (4%nat, lo, hi), b1 :: b2 :: b3 :: p4 =>
            between lo hi b1 && between 128 191 b2 && between 128 191 b3
            && Valid p4
        | _, _ => false
        end
  end.

(** [utf8.ValidString]. *)
Definition ValidString (s : string) : bool :=
  Valid (Byte.to_N <$> String.list_byte_of_string s).

End utf8.

(** ** Package docker: types.go *)

Module docker.

(** [ContainerStat]; a [float64] that is only carried around is kept as
    its 64-bit pattern. *)
Record ContainerStat := mkContainerStat {
  stat_ID : string;
  CPUPercent : Z;
  MemoryPercent : Z;
  MemoryUsage : Z
}.

Record Container := mkContainer {
  ID : string;
  Name : string;
  Image : string;
  ImageID : string;
  Command : string;
  Created : time.Time;
  StartedAt : time.Time;
  State : string;
  Health : string;
  container_Host : string;
  Tty : bool;
  Labels : gmap string string;
  (** [Stats.Data()]: the samples the ring buffer holds, oldest first. *)
  Stats : list ContainerStat;
  Group : string
}.

Record ContainerEvent := mkContainerEvent {
  ActorID : string;
  event_Name : string;
  event_Host : string
}.

Definition LogPosition := string.
Definition Beginning : LogPosition := "start".
Definition Middle : LogPosition := "middle".
Definition End : LogPosition := "end".

Definition ContainerAction := string.
Definition Start : ContainerAction := "start".
Definition Stop : ContainerAction := "stop".
Definition Restart : ContainerAction := "restart".

(** The values an ordered map of [any] holds: decoded JSON. *)
#[local] Unset Elimination Schemes.
Inductive any :=
| JNull
| JBool (b : bool)
| JNumber (bits : Z)
| JString (s : string)
| JArray (items : list any)
| JObject (fields : list (string * any)).
#[local] Set Elimination Schemes.

(** [orderedmap.OrderedMap[string, T]]: the pairs in insertion order. *)
Definition OrderedMap (T : Type) := list (string * T).

(** The dynamic type of [LogEvent.Message]. The server tells apart a
    string and a pointer to either ordered map; everything else
    ([nil] included) is [MsgOther] with the name of its type. *)
Inductive Message :=
| MsgString (data : string)
| MsgOrderedAny (data : option (OrderedMap any))
| MsgOrderedString (data : option (OrderedMap string))
| MsgOther (typeName : string).

Record LogEvent := mkLogEvent {
  event_Message : Message;
  Timestamp : Z;
  Id : Z;
  Level : string;
  Position : LogPosition;
  Stream : string;
  ContainerID : string
}.

Definition ParseContainerAction (input : string) : ContainerAction * error :=
  let action : ContainerAction := input in
  if bool_decide (action = Start) || bool_decide (action = Stop)
     || bool_decide (action = Restart)
  then (action, None)
  else (""%string, Some (errorString ("unknown action: " +:+ input))).

Definition HasLevel (l : LogEvent) : bool :=
  bool_decide (Level l ≠ ""%string).

Definition IsCloseToTime (l other : LogEvent) : bool :=
  math_Abs (float64_of_int (int64_sub (Timestamp l) (Timestamp other))) <? 10.

(** *** Declared in other files of the package

    Only the use the agent makes of them is known: the fields it reads
    and the methods it calls. *)

Record Host := mkHost {
  host_ID : string;
  host_Name : string;
  NCPU : Z;
  MemTotal : Z;
  DockerVersion : string
}.

Definition StdType := Z.

(** The [Client] interface. *)
Record Client := mkClient {
  ContainerLogs : string → time.Time → StdType → result io.Reader;
  ContainerLogsBetweenDates :
    string → time.Time → time.Time → StdType → result io.Reader;
  client_FindContainer : string → result Container;
  ContainerActions : ContainerAction → string → error;
  client_Host : Host
}.

(** [*ContainerStore], by its two queries. *)
Record ContainerStore := mkContainerStore {
  store_FindContainer : string → result Container;
  store_ListContainers : result (list Container)
}.

(** [*EventGenerator], once the generator has done all it will do: what
    waits on the [Events] channel, whether that channel has been closed
    behind it, and what waits on the [Errors] channel. A channel of
    pointers can carry [nil]; a channel of errors can too. *)
Record EventGenerator := mkEventGenerator {
  Events : list (option LogEvent);
  Events_closed : bool;
  Errors : list error
}.

End docker.

(** ** The wire messages (package pb) *)

Module pb.

Record Timestamp := mkTimestamp {
  Seconds : Z;
  Nanos : Z
}.

Record SimpleMessage := mkSimpleMessage { simple_Message : string }.
Record ComplexMessage := mkComplexMessage { complex_Data : list Byte.byte }.

(** What [anypb.New] packs: the message together with its type. *)
Inductive Any :=
| AnySimpleMessage (m : SimpleMessage)
| AnyComplexMessage (m : ComplexMessage).

Record LogEvent := mkLogEvent {
  Message : option Any;
  event_Timestamp : Timestamp;
  Id : Z;
  ContainerId : string;
  Level : string;
  Stream : string;
  Position : string
}.

Record ContainerStat := mkContainerStat {
  stat_Id : string;
  CpuPercent : Z;
  MemoryPercent : Z;
  MemoryUsage : Z
}.

Record Container := mkContainer {
  container_Id : string;
  Name : string;
  Image : string;
  ImageId : string;
  Command : string;
  Created : Timestamp;
  State : string;
  Health : string;
  container_Host : string;
  Tty : bool;
  Labels : gmap string string;
  Group : string;
  Started : Timestamp;
  Stats : list ContainerStat
}.

Record Host := mkHost {
  host_Id : string;
  host_Name : string;
  CpuCores : Z;
  Memory : Z;
  DockerVersion : string;
  AgentVersion : string
}.

(** The enum of the action request. Its numbers are fixed by the
    generated code; a request can carry any other number as well. *)
Inductive ContainerAction :=
| ContainerAction_Start
| ContainerAction_Stop
| ContainerAction_Restart
| ContainerAction_other (number : Z).

Record StreamLogsRequest := mkStreamLogsRequest {
  logs_ContainerId : string;
  logs_Since : option Timestamp;
  logs_StreamTypes : Z
}.

Record LogsBetweenDatesRequest := mkLogsBetweenDatesRequest {
  between_ContainerId : string;
  between_Since : option Timestamp;
  between_Until : option Timestamp;
  between_StreamTypes : Z
}.

Record StreamRawBytesRequest := mkStreamRawBytesRequest {
  raw_ContainerId : string;
  raw_Since : option Timestamp;
  raw_Until : option Timestamp;
  raw_StreamTypes : Z
}.

Record FindContainerRequest := mkFindContainerRequest {
  find_ContainerId : string
}.

Record ContainerActionRequest := mkContainerActionRequest {
  action_ContainerId : string;
  Action : ContainerAction
}.

Record StreamLogsResponse := mkStreamLogsResponse { Event : LogEvent }.
Record StreamRawBytesResponse := mkStreamRawBytesResponse { Data : list Byte.byte }.
Record FindContainerResponse := mkFindContainerResponse { response_Container : Container }.
Record ListContainersResponse := mkListContainersResponse { Containers : list Container }.
Record HostInfoResponse := mkHostInfoResponse { response_Host : Host }.
Record ContainerActionResponse := mkContainerActionResponse { }.

End pb.

(** ** The agent server (package agent) *)

Module agent.

(** *** Calls on the collaborators, and how a handler can end *)

Inductive Call :=
| Client_ContainerLogs (id : string) (since : time.Time) (std : docker.StdType)
| Client_ContainerLogsBetweenDates
    (id : string) (since until : time.Time) (std : docker.StdType)
| Client_FindContainer (id : string)
| Client_ContainerActions (action : docker.ContainerAction) (id : string)
| Client_Host
| Store_FindContainer (id : string)
| Store_ListContainers
| Reader_Read (len : nat)
| Send_Logs (r : pb.StreamLogsResponse)
| Send_RawBytes (r : pb.StreamRawBytesResponse).

(** A handler returns, panics, ends the process ([log.Fatalf]), or never
    returns (blocked on its channels or looping). *)
Inductive Exec (A : Type) :=
| Return (a : A)
| Panic (msg : string)
| Fatal (msg : string)
| Hangs.
Arguments Return {A} a.
Arguments Panic {A} msg.
Arguments Fatal {A} msg.
Arguments Hangs {A}.

(** The calls made, in order, and the end reached. *)
Definition M (A : Type) : Type := list Call * Exec A.

Definition bind {A B : Type} (m : M A) (k : A → M B) : M B :=
  match m with
  | (t, Return a) => let '(t', r) := k a in (t ++ t', r)
  | (t, Panic msg) => (t, Panic msg)
  | (t, Fatal msg) => (t, Fatal msg)
  | (t, Hangs) => (t, Hangs)
  end.

#[export] Instance M_ret : MRet M := λ A a, ([], Return a).
#[export] Instance M_bind : MBind M := λ A B k m, bind m k.

Definition call {A : Type} (c : Call) (answer : A) : M A := ([c], Return answer).
Definition lift {A : Type} (x : Exec A) : M A := ([], x).

(** Where the Go scheduler chooses (a [select] with several ready cases),
    a handler has a list of possible runs. *)
Definition bindN {A B : Type} (m : M A) (k : A → list (M B)) : list (M B) :=
  match m with
  | (t, Return a) => (λ '(t', r), (t ++ t', r)) <$> k a
  | (t, Panic msg) => [(t, Panic msg)]
  | (t, Fatal msg) => [(t, Fatal msg)]
  | (t, Hangs) => [(t, Hangs)]
  end.

(** The server side of a stream: whether its context is done, and what
    the k-th [Send] (from 0) answers. *)
Record ServerStream := mkServerStream {
  Context_Done : bool;
  Send : nat → error
}.

Record server := mkServer {
  client : docker.Client;
  store : docker.ContainerStore;
  version : string
}.

(** *** Conversions of the protobuf library *)

(** [timestamppb.New]. *)
Definition timestamppb_New (t : time.Time) : pb.Timestamp :=
  pb.mkTimestamp (time.unix_sec t) (time.unix_nsec t).

(** [AsTime], which reads a [nil] timestamp as zero seconds and nanos. *)
Definition AsTime (x : option pb.Timestamp) : time.Time :=
  match x with
  | Some ts => time.Unix (pb.Seconds ts) (pb.Nanos ts)
  | None => time.Unix 0 0
  end.

(** *** JSON of an ordered map *)

(** What [encoding/json] gets from the ordered map of values of type [T]
    through its [MarshalJSON]: the JSON text, or an error. *)
Class JSONMarshaler (T : Type) :=
  MarshalJSON : docker.OrderedMap T → result (list Byte.byte).

(** [json.NewEncoder(w).Encode(data)] for a pointer to an ordered map:
    the JSON text and a newline are written; [null] stands for a [nil]
    pointer; on an error nothing is written. *)
Definition json_Encode {T : Type} `{JSONMarshaler T}
    (w : list Byte.byte) (data : option (docker.OrderedMap T))
    : list Byte.byte * error :=
  match data with
  | None => (w ++ String.list_byte_of_string "null" ++ [Byte.x0a], None)
  | Some m =>
      match MarshalJSON m with
      | Ok text => (w ++ text ++ [Byte.x0a], None)
      | Fail e => (w, Some e)
      end
  end.

Definition orderedMapToJSONBytes {T : Type} `{JSONMarshaler T}
    (data : option (docker.OrderedMap T)) : list Byte.byte :=
  let bytes : list Byte.byte := [] in
  fst (json_Encode bytes data).

(** [anypb.New]: the message is marshalled and packed with its type. The
    messages are proto3 messages: marshalling refuses a [string] field
    that is not valid UTF-8, and then there is no [Any] but an error
    (whose text no caller here reads); a [bytes] field holds any bytes. *)
Definition anypb_New (src : pb.Any) : option pb.Any * error :=
  match src with
  | pb.AnySimpleMessage m =>
      if utf8.ValidString (pb.simple_Message m) then (Some src, None)
      else (None, Some (errorString "proto: invalid UTF-8"))
  | pb.AnyComplexMessage _ => (Some src, None)
  end.

Section LogEvents.
Context `{JSONMarshaler docker.any} `{JSONMarshaler string}.

(** The error of [anypb.New] is dropped ([message, _ = anypb.New(...)]):
    on an error the event goes out with a [nil] message. *)
Definition logEventToPb (event : option docker.LogEvent) : Exec pb.LogEvent :=
  match event with
  | None => Panic "invalid memory address or nil pointer dereference"
  | Some event =>
      let message : Exec (option pb.Any) :=
        match docker.event_Message event with
        | docker.MsgString data =>
            Return (fst (anypb_New
              (pb.AnySimpleMessage (pb.mkSimpleMessage data))))
        | docker.MsgOrderedAny data =>
            Return (fst (anypb_New (pb.AnyComplexMessage
              (pb.mkComplexMessage (orderedMapToJSONBytes data)))))
        | docker.MsgOrderedString data =>
            Return (fst (anypb_New (pb.AnyComplexMessage
              (pb.mkComplexMessage (orderedMapToJSONBytes data)))))
        | docker.MsgOther typeName =>
            Fatal ("agent server: unknown type " +:+ typeName)
        end in
      match message with
      | Return message =>
          Return {|
            pb.Message := message;
            pb.event_Timestamp :=
              timestamppb_New (time.Unix (docker.Timestamp event) 0);
            pb.Id := docker.Id event;
            pb.ContainerId := docker.ContainerID event;
            pb.Level := docker.Level event;
            pb.Stream := docker.Stream event;
            pb.Position := docker.Position event
          |}
      | Panic msg => Panic msg
      | Fatal msg => Fatal msg
      | Hangs => Hangs
      end
  end.

(** [out.Send(&pb.StreamLogsResponse{Event: logEventToPb(event)})], the
    answer of [Send] dropped. *)
Definition send_event (event : option docker.LogEvent) : M unit :=
  e ← lift (logEventToPb event);
  call (Send_Logs (pb.mkStreamLogsResponse e)) tt.

End LogEvents.

(** *** The handlers *)

Section Handlers.
Context `{JSONMarshaler docker.any} `{JSONMarshaler string}.

(** [docker.NewEventGenerator], with its result taken when the generator
    has finished with the reader. *)
Variable NewEventGenerator :
  io.Reader → docker.Container → docker.EventGenerator.

(** [for event := range g.Events { out.Send(...) }]. *)
Fixpoint StreamLogs_range (events : list (option docker.LogEvent)) : M unit :=
  match events with
  | [] => mret tt
  | event :: events => _ ← send_event event; StreamLogs_range events
  end.

Definition StreamLogs (s : server) (in_ : pb.StreamLogsRequest)
    (out : ServerStream) : M error :=
  let since :=
    match pb.logs_Since in_ with
    | Some ts => AsTime (Some ts)
    | None => time.zero
    end in
  let id := pb.logs_ContainerId in_ in
  let std : docker.StdType := pb.logs_StreamTypes in_ in
  r ← call (Client_ContainerLogs id since std)
           (docker.ContainerLogs (client s) id since std);
  match r with
  | Fail e => mret (Some e)
  | Ok reader =>
      c ← call (Store_FindContainer id) (docker.store_FindContainer (store s) id);
      match c with
      | Fail e => mret (Some e)
      | Ok container =>
          let g := NewEventGenerator reader container in
          _ ← StreamLogs_range (docker.Events g);
          if docker.Events_closed g then
            match docker.Errors g with
            | e :: _ => mret e
            | [] => mret None
            end
          else lift Hangs
      end
  end.

(** The [for { select { ... } }] of [LogsBetweenDates]: every case that
    is ready can be the one taken. A closed and drained [Events]
    channel is always ready and delivers [nil]. With no case ready the
    handler stays blocked. *)
Fixpoint LogsBetweenDates_loop (events : list (option docker.LogEvent))
    (closed : bool) (errors : list error) (done : bool) : list (M error) :=
  let on_event :=
    match events with
    | event :: events =>
        bindN (send_event event)
              (λ _, LogsBetweenDates_loop events closed errors done)
    | [] =>
        if closed
        then [ _ ← send_event None; lift Hangs ]
        else []
    end in
  let on_error :=
    match errors with
    | e :: _ => [ mret e ]
    | [] => []
    end in
  let on_done := if done then [ mret None ] else [] in
  match on_event ++ on_error ++ on_done with
  | [] => [ lift Hangs ]
  | runs => runs
  end.

Definition LogsBetweenDates (s : server) (in_ : pb.LogsBetweenDatesRequest)
    (out : ServerStream) : list (M error) :=
  let id := pb.between_ContainerId in_ in
  let since := AsTime (pb.between_Since in_) in
  let until := AsTime (pb.between_Until in_) in
  let std : docker.StdType := pb.between_StreamTypes in_ in
  bindN (call (Client_ContainerLogsBetweenDates id since until std)
              (docker.ContainerLogsBetweenDates (client s) id since until std))
    (λ r,
      match r with
      | Fail e => [ mret (Some e) ]
      | Ok reader =>
          bindN (call (Client_FindContainer id)
                      (docker.client_FindContainer (client s) id))
            (λ c,
              match c with
              | Fail e => [ mret (Some e) ]
              | Ok container =>
                  let g := NewEventGenerator reader container in
                  LogsBetweenDates_loop (docker.Events g)
                    (docker.Events_closed g) (docker.Errors g)
                    (Context_Done out)
              end)
      end).

End Handlers.

(** The loop of [StreamRawBytes] over [buf := make([]byte, 1024)]; [k]
    counts the messages sent so far. [buf[:n]] panics when the reader
    claims more bytes than the buffer has. *)
Fixpoint StreamRawBytes_loop (reader : io.Reader) (out : ServerStream)
    (k : nat) : M error :=
  match reader with
  | [] => call (Reader_Read 1024) (Some io.EOF)
  | (data, err) :: reader =>
      _ ← call (Reader_Read 1024) tt;
      match err with
      | Some e => mret (Some e)
      | None =>
          if bool_decide (length data = 0%nat) then mret None
          else if bool_decide (length data ≤ 1024)%nat then
            sent ← call (Send_RawBytes (pb.mkStreamRawBytesResponse data))
                        (Send out k);
            match sent with
            | Some e => mret (Some e)
            | None => StreamRawBytes_loop reader out (S k)
            end
          else lift (Panic "slice bounds out of range")
      end
  end.

Definition StreamRawBytes (s : server) (in_ : pb.StreamRawBytesRequest)
    (out : ServerStream) : M error :=
  let id := pb.raw_ContainerId in_ in
  let since := AsTime (pb.raw_Since in_) in
  let until := AsTime (pb.raw_Until in_) in
  let std : docker.StdType := pb.raw_StreamTypes in_ in
  r ← call (Client_ContainerLogsBetweenDates id since until std)
           (docker.ContainerLogsBetweenDates (client s) id since until std);
  match r with
  | Fail e => mret (Some e)
  | Ok reader => StreamRawBytes_loop reader out 0
  end.

Definition FindContainer (s : server) (in_ : pb.FindContainerRequest)
    : M (option pb.FindContainerResponse * error) :=
  let id := pb.find_ContainerId in_ in
  r ← call (Store_FindContainer id) (docker.store_FindContainer (store s) id);
  match r with
  | Fail e => mret (None, status_Error NotFound (Error e))
  | Ok container =>
      mret (Some (pb.mkFindContainerResponse {|
        pb.container_Id := docker.ID container;
        pb.Name := docker.Name container;
        pb.Image := docker.Image container;
        pb.ImageId := docker.ImageID container;
        pb.Command := docker.Command container;
        pb.Created := timestamppb_New (docker.Created container);
        pb.State := docker.State container;
        pb.Health := docker.Health container;
        pb.container_Host := docker.container_Host container;
        pb.Tty := docker.Tty container;
        pb.Labels := docker.Labels container;
        pb.Group := docker.Group container;
        pb.Started := timestamppb_New (docker.StartedAt container);
        pb.Stats := []
      |}), None)
  end.

Definition ListContainers (s : server)
    : M (option pb.ListContainersResponse * error) :=
  r ← call Store_ListContainers (docker.store_ListContainers (store s));
  match r with
  | Fail e => mret (None, Some e)
  | Ok containers =>
      let pbContainers :=
        (λ container,
          let pbStats :=
            (λ stat, {|
              pb.stat_Id := docker.stat_ID stat;
              pb.CpuPercent := docker.CPUPercent stat;
              pb.MemoryPercent := docker.MemoryPercent stat;
              pb.MemoryUsage := docker.MemoryUsage stat
            |}) <$> docker.Stats container in
          {|
            pb.container_Id := docker.ID container;
            pb.Name := docker.Name container;
            pb.Image := docker.Image container;
            pb.ImageId := docker.ImageID container;
            pb.Created := timestamppb_New (docker.Created container);
            pb.State := docker.State container;
            pb.Health := docker.Health container;
            pb.container_Host := docker.container_Host container;
            pb.Tty := docker.Tty container;
            pb.Labels := docker.Labels container;
            pb.Group := docker.Group container;
            pb.Started := timestamppb_New (docker.StartedAt container);
            pb.Stats := pbStats;
            pb.Command := docker.Command container
          |}) <$> containers in
      mret (Some (pb.mkListContainersResponse pbContainers), None)
  end.

Definition HostInfo (s : server) : M (option pb.HostInfoResponse * error) :=
  host ← call Client_Host (docker.client_Host (client s));
  mret (Some (pb.mkHostInfoResponse {|
    pb.host_Id := docker.host_ID host;
    pb.host_Name := docker.host_Name host;
    pb.CpuCores := docker.NCPU host mod 2 ^ 32;
    pb.Memory := docker.MemTotal host mod 2 ^ 64;
    pb.DockerVersion := docker.DockerVersion host;
    pb.AgentVersion := version s
  |}), None).

(** The [switch in.Action] of [ContainerAction]: the docker action of a
    known number, nothing in the [default] case. *)
Definition action_of_pb (a : pb.ContainerAction) : option docker.ContainerAction :=
  match a with
  | pb.ContainerAction_Start => Some docker.Start
  | pb.ContainerAction_Stop => Some docker.Stop
  | pb.ContainerAction_Restart => Some docker.Restart
  | pb.ContainerAction_other _ => None
  end.

Definition ContainerAction (s : server) (in_ : pb.ContainerActionRequest)
    : M (option pb.ContainerActionResponse * error) :=
  match action_of_pb (pb.Action in_) with
  | None => mret (None, status_Error InvalidArgument "invalid action")
  | Some action =>
      let id := pb.action_ContainerId in_ in
      err ← call (Client_ContainerActions action id)
                 (docker.ContainerActions (client s) action id);
      match err with
      | Some e => mret (None, status_Error Internal (Error e))
      | None => mret (Some pb.mkContainerActionResponse, None)
      end
  end.

End agent.

(** ** Observations on a run, and sample collaborators *)

Module observe.
Import agent.

(** The error a unary handler hands back, when it returns. *)
Definition returned_error {A : Type} (run : M (A * error)) : option error :=
  match snd run with
  | Return (_, e) => Some e
  | _ => None
  end.

(** The point in time given to the client's log read, when there is one. *)
Definition logs_read_since (run : M error) : option time.Time :=
  head (omap (λ c, match c with
                   | Client_ContainerLogs _ since _ => Some since
                   | _ => None
                   end) (fst run)).

(** The chunks forwarded on a raw-bytes stream, in order. *)
Definition raw_chunks (t : list Call) : list (list Byte.byte) :=
  omap (λ c, match c with
             | Send_RawBytes r => Some (pb.Data r)
             | _ => None
             end) t.




End observe.

Module sample.
Import agent.

(** A marshaler for the examples: quoted keys and values, no escaping;
    only strings, booleans and null among the [any] values. *)
Definition quote (s : string) : list Byte.byte :=
  [Byte.x22] ++ String.list_byte_of_string s ++ [Byte.x22].

Fixpoint fields {T : Type} (value : T → result (list Byte.byte))
    (m : docker.OrderedMap T) : result (list Byte.byte) :=
  match m with
  | [] => Ok []
  | (k, v) :: m =>
      match value v, fields value m with
      | Ok v, Ok rest =>
          Ok (quote k ++ [Byte.x3a] ++ v
              ++ match m with [] => [] | _ => [Byte.x2c] end ++ rest)
      | Fail e, _ | _, Fail e => Fail e
      end
  end.

Definition object {T : Type} (value : T → result (list Byte.byte))
    (m : docker.OrderedMap T) : result (list Byte.byte) :=
  match fields value m with
  | Ok text => Ok ([Byte.x7b] ++ text ++ [Byte.x7d])
  | Fail e => Fail e
  end.

Definition marshal_string : JSONMarshaler string := object (λ s, Ok (quote s)).

Definition marshal_any : JSONMarshaler docker.any :=
  object (λ v, match v with
               | docker.JString s => Ok (quote s)
               | docker.JNull => Ok (String.list_byte_of_string "null")
               | docker.JBool true => Ok (String.list_byte_of_string "true")
               | docker.JBool false => Ok (String.list_byte_of_string "false")
               | _ => Fail (errorString "json: unsupported type")
               end).

Definition event (message : docker.Message) (ts : Z) (level : string)
    : docker.LogEvent :=
  docker.mkLogEvent message ts 1 level docker.Beginning "stdout" "abc123".


Definition web : docker.Container :=
  docker.mkContainer "abc123" "web" "nginx" "sha256:1" "nginx -g" (time.Unix 1700000000 0)
    (time.Unix 1700000100 0) "running" "" "localhost" false ∅ [] "".

(** A runtime that knows the container [abc123] only. *)
Definition no_such_container (id : string) : err :=
  errorString ("Error response from daemon: No such container: " +:+ id).

Definition lookup (id : string) : result docker.Container :=
  if bool_decide (id = "abc123") then Ok web else Fail (no_such_container id).

Definition runtime (logs : io.Reader) : docker.Client := {|
  docker.ContainerLogs := λ id _ _,
    if bool_decide (id = "abc123") then Ok logs else Fail (no_such_container id);
  docker.ContainerLogsBetweenDates := λ id _ _ _,
    if bool_decide (id = "abc123") then Ok logs else Fail (no_such_container id);
  docker.client_FindContainer := lookup;
  docker.ContainerActions := λ _ id,
    if bool_decide (id = "abc123") then None else Some (no_such_container id);
  docker.client_Host := docker.mkHost "h1" "localhost" 8 16000000000 "24.0.7"
|}.

Definition ready_store : docker.ContainerStore := {|
  docker.store_FindContainer := lookup;
  docker.store_ListContainers := Ok [web]
|}.

(** A store that has lost its runtime. *)
Definition broken_store : docker.ContainerStore := {|
  docker.store_FindContainer := lookup;
  docker.store_ListContainers :=
    Fail (errorString "Cannot connect to the Docker daemon")
|}.

Definition srv (logs : io.Reader) : server :=
  mkServer (runtime logs) ready_store "v8.0.0".

Definition broken_srv : server := mkServer (runtime []) broken_store "v8.0.0".

(** A stream whose context is alive and whose sends succeed. *)
Definition live : ServerStream := mkServerStream false (λ _, None).

(** A generator over a source with no line in it, as the design has it:
    the events channel closed, no error. *)
Definition drained (_ : io.Reader) (_ : docker.Container) : docker.EventGenerator :=
  docker.mkEventGenerator [] true [].

(** The same, for a generator that reports the end of its reader on the
    errors channel. *)
Definition drained_EOF (_ : io.Reader) (_ : docker.Container)
    : docker.EventGenerator :=
  docker.mkEventGenerator [] true [Some io.EOF].

End sample.

(** ** The subscription streams of the agent *)

(** The wire messages of [StreamEvents], [StreamStats] and
    [StreamContainerStarted] (package pb). *)
Module pbstream.

Record ContainerEvent := mkContainerEvent {
  ActorId : string;
  Name : string;
  Host : string
}.

Record StreamEventsResponse := mkStreamEventsResponse {
  Event : ContainerEvent
}.

Record StreamStatsResponse := mkStreamStatsResponse {
  Stat : pb.ContainerStat
}.

Record StreamContainerStartedResponse := mkStreamContainerStartedResponse {
  Container : pb.Container
}.

End pbstream.

Module streams.
Import agent.

(** A run of a subscription handler: the responses handed to [out.Send],
    in order, and the end reached. The answer of [Send] is dropped by the
    three handlers. *)
Definition Run (R : Type) : Type := list R * Exec error.

(** The [for { select { ... } }] that the three handlers have in common.
    [feed] is what the store puts on the channel the handler made, in
    order; it does not close that channel. Every case that is ready can be
    the one taken: the next value of the channel, turned into a response
    and sent, or the end of the context, on which the handler returns
    [nil]. With no case ready the handler stays blocked. *)
Fixpoint subscription_loop {E R : Type} (response : E → R) (feed : list E)
    (done : bool) : list (Run R) :=
  let on_value :=
    match feed with
    | value :: feed =>
        (λ '(sent, r), (response value :: sent, r))
          <$> subscription_loop response feed done
    | [] => []
    end in
  let on_done := if done then [ ([], Return None) ] else [] in
  match on_value ++ on_done with
  | [] => [ ([], Hangs) ]
  | runs => runs
  end.

Section Subscriptions.

(** [SubscribeEvents], [SubscribeStats] and [SubscribeNewContainers] of the
    store, by what they put on the channel they are given. *)
Variable SubscribeEvents : docker.ContainerStore → list docker.ContainerEvent.
Variable SubscribeStats : docker.ContainerStore → list docker.ContainerStat.
Variable SubscribeNewContainers :
  docker.ContainerStore → list docker.Container.

Definition StreamEvents (s : server) (out : ServerStream)
    : list (Run pbstream.StreamEventsResponse) :=
  let events := SubscribeEvents (store s) in
  subscription_loop
    (λ event, pbstream.mkStreamEventsResponse {|
       pbstream.ActorId := docker.ActorID event;
       pbstream.Name := docker.event_Name event;
       pbstream.Host := docker.event_Host event
     |})
    events (Context_Done out).

Definition StreamStats (s : server) (out : ServerStream)
    : list (Run pbstream.StreamStatsResponse) :=
  let stats := SubscribeStats (store s) in
  subscription_loop
    (λ stat, pbstream.mkStreamStatsResponse {|
       pb.stat_Id := docker.stat_ID stat;
       pb.CpuPercent := docker.CPUPercent stat;
       pb.MemoryPercent := docker.MemoryPercent stat;
       pb.MemoryUsage := docker.MemoryUsage stat
     |})
    stats (Context_Done out).

Definition StreamContainerStarted (s : server) (out : ServerStream)
    : list (Run pbstream.StreamContainerStartedResponse) :=
  let containers := SubscribeNewContainers (store s) in
  subscription_loop
    (λ container, pbstream.mkStreamContainerStartedResponse {|
       pb.container_Id := docker.ID container;
       pb.Name := docker.Name container;
       pb.Image := docker.Image container;
       pb.ImageId := docker.ImageID container;
       pb.Command := "";
       pb.Created := timestamppb_New (docker.Created container);
       pb.State := docker.State container;
       pb.Health := docker.Health container;
       pb.container_Host := docker.container_Host container;
       pb.Tty := docker.Tty container;
       pb.Labels := docker.Labels container;
       pb.Group := docker.Group container;
       pb.Started := timestamppb_New (docker.StartedAt container);
       pb.Stats := []
     |})
    containers (Context_Done out).

End Subscriptions.

End streams.

(** ** More observations and samples *)

Module traces.
Import agent.

(** The log events handed to [out.Send] on a log stream, in order. *)
Definition sent_events (t : list Call) : list pb.LogEvent :=
  omap (λ c, match c with
             | Send_Logs r => Some (pb.Event r)
             | _ => None
             end) t.

(** What a unary handler returns is a response and no error, or an error
    and no response. *)
Definition response_or_error {A : Type} (run : M (option A * error)) : Prop :=
  ∀ resp e, snd run = Return (resp, e) → (resp = None ↔ e ≠ None).

(** A wire container with its stats left out. *)
Definition without_stats (c : pb.Container) : pb.Container := {|
  pb.container_Id := pb.container_Id c;
  pb.Name := pb.Name c;
  pb.Image := pb.Image c;
  pb.ImageId := pb.ImageId c;
  pb.Command := pb.Command c;
  pb.Created := pb.Created c;
  pb.State := pb.State c;
  pb.Health := pb.Health c;
  pb.container_Host := pb.container_Host c;
  pb.Tty := pb.Tty c;
  pb.Labels := pb.Labels c;
  pb.Group := pb.Group c;
  pb.Started := pb.Started c;
  pb.Stats := []
|}.

(** The four numbers of a stat sample, on either side of the wire. *)
Definition stat_values (st : docker.ContainerStat) : string * Z * Z * Z :=
  (docker.stat_ID st, docker.CPUPercent st, docker.MemoryPercent st,
   docker.MemoryUsage st).

Definition pb_stat_values (st : pb.ContainerStat) : string * Z * Z * Z :=
  (pb.stat_Id st, pb.CpuPercent st, pb.MemoryPercent st, pb.MemoryUsage st).



(** The three strings of a container event, on either side of the wire. *)
Definition event_values (e : docker.ContainerEvent) : string * string * string :=
  (docker.ActorID e, docker.event_Name e, docker.event_Host e).

Definition pb_event_values (e : pbstream.ContainerEvent)
    : string * string * string :=
  (pbstream.ActorId e, pbstream.Name e, pbstream.Host e).

(** What describes a container apart from its command and its stats, on
    either side of the wire: the identifier, name, image and image
    identifier, the state, health, host and group, the terminal flag, the
    labels, and the times of creation and of start as wire timestamps. *)
Definition container_values (c : docker.Container)
    : (string * string * string * string)
      * (string * string * string * string)
      * (bool * gmap string string) * (pb.Timestamp * pb.Timestamp) :=
  ((docker.ID c, docker.Name c, docker.Image c, docker.ImageID c),
   (docker.State c, docker.Health c, docker.container_Host c, docker.Group c),
   (docker.Tty c, docker.Labels c),
   (pb.mkTimestamp (time.unix_sec (docker.Created c))
      (time.unix_nsec (docker.Created c)),
    pb.mkTimestamp (time.unix_sec (docker.StartedAt c))
      (time.unix_nsec (docker.StartedAt c)))).

Definition pb_container_values (c : pb.Container)
    : (string * string * string * string)
      * (string * string * string * string)
      * (bool * gmap string string) * (pb.Timestamp * pb.Timestamp) :=
  ((pb.container_Id c, pb.Name c, pb.Image c, pb.ImageId c),
   (pb.State c, pb.Health c, pb.container_Host c, pb.Group c),
   (pb.Tty c, pb.Labels c),
   (pb.Created c, pb.Started c)).

(** Whether a handler ended by returning. *)
Definition returns {A : Type} (x : Exec A) : bool :=
  match x with
  | Return _ => true
  | _ => false
  end.

End traces.

Module sample2.
Import agent.

Definition api : docker.Container :=
  docker.mkContainer "def456" "api.1.k3v9x" "node:20" "sha256:2" "node server.js"
    (time.Unix 1700000200 0) (time.Unix 1700000300 0) "running" "healthy"
    "localhost" false ∅
    [docker.mkContainerStat "def456" 11 22 33;
     docker.mkContainerStat "def456" 44 55 66] "stack".

Definition two_store : docker.ContainerStore := {|
  docker.store_FindContainer := λ id,
    if bool_decide (id = "def456") then Ok api else sample.lookup id;
  docker.store_ListContainers := Ok [sample.web; api]
|}.

Definition two_srv : server :=
  mkServer (sample.runtime []) two_store "v8.0.0".

(** A stream whose context is done. *)
Definition cancelled : ServerStream := mkServerStream true (λ _, None).

(** A generator that delivers two lines and ends. *)
Definition two_lines (_ : io.Reader) (_ : docker.Container)
    : docker.EventGenerator :=
  docker.mkEventGenerator
    [Some (sample.event (docker.MsgString "starting") 1700000000 "");
     Some (sample.event (docker.MsgString "ready") 1700000001 "info")]
    true [].

(** A generator whose second value is a [nil] event. *)
Definition nil_in_the_middle (_ : io.Reader) (_ : docker.Container)
    : docker.EventGenerator :=
  docker.mkEventGenerator
    [Some (sample.event (docker.MsgString "starting") 1700000000 "");
     None;
     Some (sample.event (docker.MsgString "ready") 1700000001 "info")]
    true [].

(** What the store of the examples publishes to a subscriber. *)
Definition published_events (_ : docker.ContainerStore)
    : list docker.ContainerEvent :=
  [docker.mkContainerEvent "abc123" "start" "localhost";
   docker.mkContainerEvent "abc123" "die" "localhost"].

Definition published_stats (_ : docker.ContainerStore)
    : list docker.ContainerStat :=
  [docker.mkContainerStat "abc123" 11 22 33].

Definition published_containers (_ : docker.ContainerStore)
    : list docker.Container :=
  [sample.web; api].

End sample2.

(** ** The container of the front end (assets: the Container class) *)

Module web.

(** A JavaScript string, by its UTF-16 code units. *)
Definition jsstring := list N.

(** The code units of an ASCII literal. *)
Definition js (s : string) : jsstring :=
  Byte.to_N <$> String.list_byte_of_string s.

(** [[a-z0-9]] under the [i] flag: a digit or a letter of either case. *)
Definition is_alnum (c : N) : bool :=
  ((48 <=? c) && (c <=? 57) || (65 <=? c) && (c <=? 90)
   || (97 <=? c) && (c <=? 122))%N.

(** The full stop, [\.]. *)
Definition is_dot (c : N) : bool := (c =? 46)%N.

(** [(\.[a-z0-9]{25})+$] read from inside a group of which [need]
    characters are still to come: the rest of the group, any number of
    further groups, and then the end of the string. *)
Fixpoint groups_from (need : nat) (l : jsstring) : bool :=
  match l with
  | [] => bool_decide (need = 0%nat)
  | c :: l =>
      match need with
      | O => is_dot c && groups_from 25 l
      | S need => is_alnum c && groups_from need l
      end
  end.

(** Whether [SWARM_ID_REGEX] matches at the head of [l]: one group at
    least, groups only, up to the end. *)
Definition SWARM_ID_REGEX_at (l : jsstring) : bool :=
  match l with
  | c :: l => is_dot c && groups_from 25 l
  | [] => false
  end.

(** The language of [(\.[a-z0-9]{25})+] under the [i] flag, said without
    the matcher: a letter or digit; a group, which is a full stop and 25
    letters or digits; one group or more, one after the other. *)
Definition alnum (c : N) : Prop :=
  (48 ≤ c ≤ 57 ∨ 65 ≤ c ≤ 90 ∨ 97 ≤ c ≤ 122)%N.

Definition group (g : jsstring) : Prop :=
  ∃ body, g = 46%N :: body ∧ length body = 25%nat ∧ Forall alnum body.

Definition groups (l : jsstring) : Prop :=
  ∃ g gs, group g ∧ Forall group gs ∧ l = g ++ concat gs.

(** [name.match(SWARM_ID_REGEX)]: the match that starts leftmost, given by
    its text ([match[0]]), or [null]. *)
Fixpoint SWARM_ID_REGEX_match (name : jsstring) : option jsstring :=
  if SWARM_ID_REGEX_at name then Some name
  else
    match name with
    | [] => None
    | _ :: rest => SWARM_ID_REGEX_match rest
    end.

(** [s.replace(pat, "")] for a string [pat]: the first occurrence of [pat]
    is taken out. *)
Fixpoint replace_first (s pat : jsstring) : jsstring :=
  if bool_decide (pat `prefix_of` s) then drop (length pat) s
  else
    match s with
    | [] => []
    | c :: s => c :: replace_first s pat
    end.

(** [Stat]; numbers as 64-bit patterns. *)
Record Stat := mkStat {
  cpu : Z;
  memory : Z;
  memoryUsage : Z
}.

(** The fields the class sets itself. The history of the stats and their
    moving average are kept by hooks from the utilities; of them only the
    initial history, handed over by the constructor, is here. *)
Record Container := mkContainer {
  id : jsstring;
  created : Z;
  image : jsstring;
  name : jsstring;
  command : jsstring;
  host : jsstring;
  labels : list (jsstring * jsstring);
  status : jsstring;
  state : jsstring;
  health : option jsstring;
  initial_stats : list Stat;
  _stat : Stat;
  swarmId : option jsstring;
  isSwarm : bool
}.

(** The constructor. *)
Definition new_Container (id : jsstring) (created : Z)
    (image name command host : jsstring) (labels : list (jsstring * jsstring))
    (status state : jsstring) (stats : list Stat) (health : option jsstring)
    : Container :=
  let _stat := mkStat 0 0 0 in
  match SWARM_ID_REGEX_match name with
  | Some swarmId =>
      mkContainer id created image (replace_first name swarmId) command host
        labels status state health stats _stat (Some swarmId) true
  | None =>
      mkContainer id created image name command host labels status state
        health stats _stat None false
  end.

(** [updateStat]: the stat is a ref, its value is replaced. *)
Definition updateStat (c : Container) (stat : Stat) : Container :=
  mkContainer (id c) (created c) (image c) (name c) (command c) (host c)
    (labels c) (status c) (state c) (health c) (initial_stats c) stat
    (swarmId c) (isSwarm c).

(** The getter [stat]. *)
Definition stat (c : Container) : Stat := _stat c.

(** A swarm task: a service name and a task identifier of 25 characters. *)
Definition task_name : jsstring := js "web.1.k3v9xq0t2m7c1a8b4z6y5w0nd".

End web.

(** ** Properties of the log event *)

Section Int64.

Lemma int64_wrap_range z : in_int64 (int64_wrap z).
Proof.
  unfold in_int64, int64_wrap, int64_min, int64_max.
  pose proof (Z.mod_pos_bound (z + 2 ^ 63) (2 ^ 64) ltac:(lia)). lia.
Qed.

Lemma int64_wrap_id z : in_int64 z → int64_wrap z = z.
Proof.
  unfold in_int64, int64_wrap, int64_min, int64_max. intros Hz.
  rewrite Z.mod_small by lia. lia.
Qed.

(** Negation on [int64]: exact, except at the least value, which it
    leaves in place. *)
Lemma int64_wrap_opp z :
  int64_wrap (- z) = if bool_decide (int64_wrap z = int64_min)
                     then int64_min else - int64_wrap z.
Proof.
  unfold int64_wrap, int64_min.
  case_bool_decide as Hmin.
  - assert (Hz : (z + 2 ^ 63) mod 2 ^ 64 = 0) by lia.
    apply Z.mod_divide in Hz; [|lia]. destruct Hz as [k Hk].
    replace (- z + 2 ^ 63) with ((1 - k) * 2 ^ 64) by lia.
    rewrite Z.mod_mul by lia. lia.
  - pose proof (Z.mod_pos_bound (z + 2 ^ 63) (2 ^ 64) ltac:(lia)) as Hb.
    pose proof (Z.div_mod (z + 2 ^ 63) (2 ^ 64) ltac:(lia)) as Hd.
    set (r := (z + 2 ^ 63) mod 2 ^ 64) in *.
    set (k := (z + 2 ^ 63) / 2 ^ 64) in *.
    replace (- z + 2 ^ 63) with ((2 ^ 64 - r) + (- k) * 2 ^ 64) by lia.
    rewrite Z.mod_add by lia. rewrite Z.mod_small by lia. lia.
Qed.

End Int64.

Section Float64.

(** Beyond 53 bits the rounded magnitude is still at least [2 ^ 52]. *)
Lemma float64_of_int_large x :
  2 ^ 53 <= Z.abs x → 2 ^ 52 <= Z.abs (float64_of_int x).
Proof.
  intros Hx. unfold float64_of_int.
  destruct (Z.ltb_spec (Z.abs x) (2 ^ 53)) as [?|_]; [lia|].
  set (a := Z.abs x) in *.
  assert (Ha : 0 < a) by lia.
  pose proof (Z.log2_spec a Ha) as [Hlo _].
  assert (Hlog : 53 <= Z.log2 a).
  { apply Z.log2_le_pow2; lia. }
  set (e := Z.log2 a - 52) in *.
  assert (He : 1 <= e) by lia.
  assert (Hpe : 1 <= 2 ^ e) by (apply (Z.pow_le_mono_r 2 0 e); lia).
  assert (Hq : 2 ^ 52 <= a / 2 ^ e).
  { apply Z.div_le_lower_bound; [lia|].
    replace (Z.log2 a) with (e + 52) in Hlo by lia.
    rewrite Z.pow_add_r in Hlo by lia. lia. }
  set (q := a / 2 ^ e) in *.
  match goal with |- _ <= Z.abs (_ * (?q' * _)) => set (q1 := q') end.
  assert (Hq1 : q <= q1).
  { subst q1. repeat case_match; lia. }
  assert (Hs : Z.abs (Z.sgn x) = 1) by lia.
  rewrite Z.abs_mul, Hs, Z.abs_eq by nia.
  nia.
Qed.

Lemma float64_of_int_small x : Z.abs x < 2 ^ 53 → float64_of_int x = x.
Proof.
  intros Hx. unfold float64_of_int.
  destruct (Z.ltb_spec (Z.abs x) (2 ^ 53)); [done|lia].
Qed.

(** The comparison with 10 is not disturbed by the conversion. *)
Lemma float64_abs_lt_10 x :
  math_Abs (float64_of_int x) < 10 ↔ Z.abs x < 10.
Proof.
  unfold math_Abs.
  destruct (Z.lt_ge_cases (Z.abs x) (2 ^ 53)) as [Hs|Hl].
  - by rewrite float64_of_int_small.
  - pose proof (float64_of_int_large x Hl). lia.
Qed.

(** The conversion commutes with negation: rounding looks at the
    magnitude only. *)
Lemma float64_of_int_opp x : float64_of_int (- x) = - float64_of_int x.
Proof.
  unfold float64_of_int. rewrite Z.abs_opp, Z.sgn_opp.
  destruct (Z.abs x <? 2 ^ 53); lia.
Qed.

End Float64.

Section LogEventProperties.
Import docker.

Lemma IsCloseToTime_wrapped (l other : LogEvent) :
  IsCloseToTime l other = true
  ↔ Z.abs (int64_sub (Timestamp l) (Timestamp other)) < 10.
Proof.
  unfold IsCloseToTime. rewrite Z.ltb_lt. apply float64_abs_lt_10.
Qed.

(** C9. [HasLevel] answers true exactly for the events whose level is a
    non-empty string; an event with no level extracted (the empty string)
    always answers false. *)
Theorem HasLevel_iff_level_not_empty (e : LogEvent) :
  (HasLevel e = true ↔ Level e ≠ ""%string)
  ∧ (Level e = ""%string → HasLevel e = false).
Proof.
  unfold HasLevel. split.
  - apply bool_decide_eq_true.
  - intros Hlevel. apply bool_decide_eq_false. tauto.
Qed.

Lemma HasLevel_iff_level_not_empty_witness :
  HasLevel (sample.event (MsgString "listening on :8080") 1700000000 "") = false.
Proof.
  apply (HasLevel_iff_level_not_empty
           (sample.event (MsgString "listening on :8080") 1700000000 "")).
  reflexivity.
Defined.

(** C10. [IsCloseToTime] is symmetric in its two events, the difference
    of the timestamps being the wrapping subtraction of [int64]. *)
Theorem IsCloseToTime_symmetric (e1 e2 : LogEvent) :
  IsCloseToTime e1 e2 = IsCloseToTime e2 e1.
Proof.
  unfold IsCloseToTime, int64_sub, math_Abs.
  replace (Timestamp e2 - Timestamp e1) with (- (Timestamp e1 - Timestamp e2))
    by lia.
  rewrite int64_wrap_opp. case_bool_decide as Hmin.
  - by rewrite Hmin.
  - by rewrite float64_of_int_opp, Z.abs_opp.
Qed.

(** C3, as the code has it. [IsCloseToTime] is true exactly when the
    64-bit wrapping difference of the two timestamps is less than 10 in
    absolute value. Whenever the true difference of the timestamps fits
    in an [int64], that is the absolute difference of the timestamps, and
    a difference of exactly 10 gives false. *)
Theorem IsCloseToTime_iff_within_10 (e1 e2 : LogEvent) :
  (IsCloseToTime e1 e2 = true
   ↔ Z.abs (int64_sub (Timestamp e1) (Timestamp e2)) < 10)
  ∧ (in_int64 (Timestamp e1 - Timestamp e2) →
     (IsCloseToTime e1 e2 = true ↔ Z.abs (Timestamp e1 - Timestamp e2) < 10))
  ∧ (Z.abs (Timestamp e1 - Timestamp e2) = 10 → IsCloseToTime e1 e2 = false).
Proof.
  split; [apply IsCloseToTime_wrapped|]. split.
  - intros Hfit. rewrite IsCloseToTime_wrapped. unfold int64_sub.
    by rewrite int64_wrap_id.
  - intros Hten. apply not_true_is_false. rewrite IsCloseToTime_wrapped.
    unfold int64_sub. rewrite int64_wrap_id; [lia|].
    unfold in_int64, int64_min, int64_max. lia.
Qed.

Lemma IsCloseToTime_iff_within_10_witness :
  (IsCloseToTime (sample.event (MsgString "a") 1700000000 "")
                 (sample.event (MsgString "b") 1700000010 "") = true
   ↔ Z.abs (1700000000 - 1700000010) < 10)
  ∧ IsCloseToTime (sample.event (MsgString "a") 1700000000 "")
                  (sample.event (MsgString "b") 1700000010 "") = false.
Proof.
  destruct (IsCloseToTime_iff_within_10
              (sample.event (MsgString "a") 1700000000 "")
              (sample.event (MsgString "b") 1700000010 ""))
    as (_ & Hfit & Hten).
  split.
  - apply Hfit. vm_compute. split; discriminate.
  - apply Hten. reflexivity.
Defined.

(** C3 as stated fails: for the greatest and the least [int64] timestamp
    the difference wraps around to -1, and the two events, 2^64 - 1
    seconds apart, are reported close. *)
Lemma IsCloseToTime_not_absolute_difference :
  ¬ (∀ e1 e2 : LogEvent,
       in_int64 (Timestamp e1) → in_int64 (Timestamp e2) →
       (IsCloseToTime e1 e2 = true
        ↔ Z.abs (Timestamp e1 - Timestamp e2) < 10)).
Proof.
  intros Hclaim.
  specialize (Hclaim (sample.event (MsgString "a") int64_max "")
                     (sample.event (MsgString "b") int64_min "")).
  assert (Hclose : IsCloseToTime (sample.event (MsgString "a") int64_max "")
                     (sample.event (MsgString "b") int64_min "") = true)
    by (vm_compute; reflexivity).
  apply Hclaim in Hclose.
  - vm_compute in Hclose. discriminate.
  - vm_compute. split; discriminate.
  - vm_compute. split; discriminate.
Qed.

(** [ParseContainerAction] accepts the three actions and nothing else. *)
Lemma ParseContainerAction_accepts (input : string) :
  snd (ParseContainerAction input) = None
  ↔ input = Start ∨ input = Stop ∨ input = Restart.
Proof.
  unfold ParseContainerAction.
  destruct (decide (input = Start)) as [->|HnStart]; [by split; auto|].
  destruct (decide (input = Stop)) as [->|HnStop]; [by split; auto|].
  destruct (decide (input = Restart)) as [->|HnRestart]; [by split; auto|].
  rewrite !bool_decide_eq_false_2 by done. simpl.
  split; [done|]. intros [?|[?|?]]; done.
Qed.

End LogEventProperties.

(** ** Properties of the agent server *)

Section WireEvents.
Import docker agent observe.
Context {marshal_any : JSONMarshaler any} {marshal_string : JSONMarshaler string}.


End WireEvents.



Section UnaryOperations.
Import agent observe.

Lemma action_of_pb_None (a : pb.ContainerAction) :
  action_of_pb a = None
  ↔ a ≠ pb.ContainerAction_Start ∧ a ≠ pb.ContainerAction_Stop
    ∧ a ≠ pb.ContainerAction_Restart.
Proof. destruct a; simpl; split; intros; try done; tauto. Qed.

(** What [ContainerAction] does with a known action: one call on the
    runtime client, whose answer decides the outcome. *)
Lemma ContainerAction_forwarded (s : server) (in_ : pb.ContainerActionRequest)
    (action : docker.ContainerAction) :
  action_of_pb (pb.Action in_) = Some action →
  ContainerAction s in_
  = ([Client_ContainerActions action (pb.action_ContainerId in_)],
     Return
       match docker.ContainerActions (client s) action (pb.action_ContainerId in_) with
       | Some e => (None, Some (statusError Internal (Error e)))
       | None => (Some pb.mkContainerActionResponse, None)
       end).
Proof.
  intros Haction. unfold ContainerAction. rewrite Haction. simpl.
  by destruct (docker.ContainerActions _ _ _).
Qed.

(** C4. An action other than start, stop and restart is answered with an
    invalid-argument status and no call reaches the runtime client (the
    trace of the run is empty). Each of start, stop and restart is handed
    to the runtime client under its own name, with the identifier of the
    request, and when the client fails the answer is an internal status
    whose message is the message of the client's error. *)
Theorem ContainerAction_invalid_or_internal
    (s : server) (in_ : pb.ContainerActionRequest) :
  (pb.Action in_ ≠ pb.ContainerAction_Start →
   pb.Action in_ ≠ pb.ContainerAction_Stop →
   pb.Action in_ ≠ pb.ContainerAction_Restart →
   ContainerAction s in_
   = ([], Return (None, Some (statusError InvalidArgument "invalid action"))))
  ∧ (∀ action e,
       pb.Action in_ = pb.ContainerAction_Start ∧ action = "start"%string
       ∨ pb.Action in_ = pb.ContainerAction_Stop ∧ action = "stop"%string
       ∨ pb.Action in_ = pb.ContainerAction_Restart
         ∧ action = "restart"%string →
       docker.ContainerActions (client s) action (pb.action_ContainerId in_)
       = Some e →
       ContainerAction s in_
       = ([Client_ContainerActions action (pb.action_ContainerId in_)],
          Return (None, Some (statusError Internal (Error e))))
       ∧ snd (docker.ParseContainerAction action) = None).
Proof.
  split.
  - intros H1 H2 H3.
    assert (Hnone : action_of_pb (pb.Action in_) = None)
      by (by apply action_of_pb_None).
    unfold ContainerAction. by rewrite Hnone.
  - intros action e Haction Hfails.
    assert (Hknown : action_of_pb (pb.Action in_) = Some action)
      by (destruct Haction as [ [-> ->] | [ [-> ->] | [-> ->] ] ]; reflexivity).
    rewrite (ContainerAction_forwarded s in_ action Hknown), Hfails.
    split; [reflexivity|].
    by destruct Haction as [ [_ ->] | [ [_ ->] | [_ ->] ] ].
Qed.

Lemma ContainerAction_invalid_or_internal_witness :
  ContainerAction (sample.srv [])
    (pb.mkContainerActionRequest "abc123" (pb.ContainerAction_other 7))
  = ([], Return (None, Some (statusError InvalidArgument "invalid action")))
  ∧ ContainerAction (sample.srv [])
      (pb.mkContainerActionRequest "gone" pb.ContainerAction_Start)
    = ([Client_ContainerActions "start" "gone"],
       Return (None, Some (statusError Internal
         "Error response from daemon: No such container: gone"))).
Proof.
  split.
  - apply (ContainerAction_invalid_or_internal (sample.srv [])
             (pb.mkContainerActionRequest "abc123" (pb.ContainerAction_other 7)));
      discriminate.
  - apply (proj2 (ContainerAction_invalid_or_internal (sample.srv [])
             (pb.mkContainerActionRequest "gone" pb.ContainerAction_Start))
             "start"%string (sample.no_such_container "gone")).
    + left. split; reflexivity.
    + reflexivity.
Defined.

(** C2, as the code has it. A restart never looks the container up in
    the store: the command goes to the runtime client, whatever the
    identifier. When the client reports an error the answer is an
    internal status with the client's message, otherwise the call
    succeeds; in no case is the answer a not-found status. *)
Theorem ContainerAction_restart_unknown_container (s : server) (id : string) :
  let run := ContainerAction s
               (pb.mkContainerActionRequest id pb.ContainerAction_Restart) in
  fst run = [Client_ContainerActions docker.Restart id]
  ∧ (∀ e, docker.ContainerActions (client s) docker.Restart id = Some e →
          snd run = Return (None, Some (statusError Internal (Error e))))
  ∧ (docker.ContainerActions (client s) docker.Restart id = None →
     snd run = Return (Some pb.mkContainerActionResponse, None))
  ∧ (∀ e, returned_error run = Some e → status_Code e ≠ NotFound).
Proof.
  intros run. subst run.
  rewrite (ContainerAction_forwarded s
             (pb.mkContainerActionRequest id pb.ContainerAction_Restart)
             docker.Restart eq_refl).
  simpl.
  repeat split.
  - by intros e ->.
  - by intros ->.
  - intros e. unfold returned_error. simpl.
    destruct (docker.ContainerActions _ _ _); intros [= <-]; done.
Qed.

Lemma ContainerAction_restart_unknown_container_witness :
  snd (ContainerAction (sample.srv [])
         (pb.mkContainerActionRequest "bad-id" pb.ContainerAction_Restart))
  = Return (None, Some (statusError Internal
      "Error response from daemon: No such container: bad-id")).
Proof.
  apply (proj1 (proj2 (ContainerAction_restart_unknown_container
                         (sample.srv []) "bad-id"))
           (sample.no_such_container "bad-id")).
  reflexivity.
Defined.

(** C2 as stated fails: the store of the sample server has no container
    [bad-id], the runtime refuses the restart, and the answer is an
    internal status. *)
Lemma ContainerAction_restart_not_found_fails :
  ¬ (∀ (s : server) (id : string),
       (∃ e, docker.store_FindContainer (store s) id = Fail e) →
       ∃ e, returned_error
              (ContainerAction s
                 (pb.mkContainerActionRequest id pb.ContainerAction_Restart))
            = Some e
            ∧ status_Code e = NotFound).
Proof.
  intros Hclaim.
  destruct (Hclaim (sample.srv []) "bad-id") as (e & Hret & Hcode).
  - by exists (sample.no_such_container "bad-id").
  - vm_compute in Hret. injection Hret as <-. discriminate.
Qed.

(** The errors of [FindContainer] are not-found statuses. *)
Lemma FindContainer_error_classified (s : server) (in_ : pb.FindContainerRequest) :
  ∃ e, returned_error (FindContainer s in_) = Some e
       ∧ (e = None ∨ ∃ msg, e = Some (statusError NotFound msg)).
Proof.
  unfold FindContainer, returned_error. simpl.
  destruct (docker.store_FindContainer _ _); simpl; eauto.
Qed.

(** [HostInfo] has no error. *)
Lemma HostInfo_no_error (s : server) : returned_error (HostInfo s) = Some None.
Proof. reflexivity. Qed.

(** The errors of [ContainerAction] are invalid-argument or internal
    statuses. *)
Lemma ContainerAction_error_classified (s : server) (in_ : pb.ContainerActionRequest) :
  ∃ e, returned_error (ContainerAction s in_) = Some e
       ∧ match e with Some e => classified e = true | None => True end.
Proof.
  unfold ContainerAction, returned_error.
  destruct (action_of_pb _); simpl.
  - destruct (docker.ContainerActions _ _ _); simpl;
      eexists; (split; [reflexivity|done]).
  - eexists; (split; [reflexivity|done]).
Qed.

(** [ListContainers] hands the error of the store back as it is. *)
Lemma ListContainers_error_raw (s : server) (e : err) :
  docker.store_ListContainers (store s) = Fail e →
  ListContainers s = ([Store_ListContainers], Return (None, Some e)).
Proof. intros Hfails. unfold ListContainers. by rewrite Hfails. Qed.

(** C5, where the code departs from it. On a store that cannot list,
    [ListContainers] returns the store's own error: it is no status, a
    peer reads its code as unknown, and it is none of not-found,
    invalid-argument and internal. *)
Theorem ListContainers_error_unclassified :
  ListContainers sample.broken_srv
  = ([Store_ListContainers],
     Return (None, Some (errorString "Cannot connect to the Docker daemon")))
  ∧ status_Code (Some (errorString "Cannot connect to the Docker daemon"))
    = Unknown
  ∧ classified (errorString "Cannot connect to the Docker daemon") = false.
Proof. repeat split. Qed.

End UnaryOperations.

Section StreamOperations.
Import agent observe.
Context {marshal_any : JSONMarshaler docker.any}
        {marshal_string : JSONMarshaler string}.
Variable NewEventGenerator :
  io.Reader → docker.Container → docker.EventGenerator.

Lemma bind_call_trace {A B : Type} (c : Call) (a : A) (k : A → M B) :
  fst (call c a ≫= k) = c :: fst (k a).
Proof. unfold mbind, M_bind, bind, call. by destruct (k a). Qed.

Lemma bind_call_end {A B : Type} (c : Call) (a : A) (k : A → M B) :
  snd (call c a ≫= k) = snd (k a).
Proof. unfold mbind, M_bind, bind, call. by destruct (k a). Qed.

(** The log read of [StreamLogs] is its first call, and the point in time
    it is given depends on the request only. *)
Lemma StreamLogs_log_read (s : server) (in_ : pb.StreamLogsRequest)
    (out : ServerStream) :
  logs_read_since (StreamLogs NewEventGenerator s in_ out)
  = Some match pb.logs_Since in_ with
         | Some ts => time.Unix (pb.Seconds ts) (pb.Nanos ts)
         | None => time.zero
         end.
Proof.
  unfold logs_read_since, StreamLogs. rewrite bind_call_trace. simpl.
  by destruct (pb.logs_Since in_).
Qed.

(** C6, as the code has it. With no [since] in the request, the log read
    of [StreamLogs] is given the zero time ([time.Time{}], the first
    instant of year 1), whatever the time of the call; with a [since], it
    is given that time. *)
Theorem StreamLogs_unset_since_is_zero_time (s : server)
    (in_ : pb.StreamLogsRequest) (out : ServerStream) :
  (pb.logs_Since in_ = None →
   logs_read_since (StreamLogs NewEventGenerator s in_ out) = Some time.zero)
  ∧ (∀ ts, pb.logs_Since in_ = Some ts →
       logs_read_since (StreamLogs NewEventGenerator s in_ out)
       = Some (time.Unix (pb.Seconds ts) (pb.Nanos ts))).
Proof.
  rewrite StreamLogs_log_read. split.
  - by intros ->.
  - by intros ts ->.
Qed.

(** A run of [bindN] that returns went through a return of its first part
    and a returning run of its second. *)
Lemma bindN_returns {A B : Type} (m : M A) (k : A → list (M B))
    (run : M B) (b : B) :
  run ∈ bindN m k → snd run = Return b →
  ∃ a run', snd m = Return a ∧ run' ∈ k a ∧ snd run' = Return b.
Proof.
  destruct m as [t [a|msg|msg|]]; simpl.
  - intros Hin Hret. apply list_elem_of_fmap in Hin as ([t' r] & -> & Hin).
    exists a, (t', r). eauto.
  - intros ->%list_elem_of_singleton; discriminate.
  - intros ->%list_elem_of_singleton; discriminate.
  - intros ->%list_elem_of_singleton; discriminate.
Qed.

(** The loop of [LogsBetweenDates] under a context that is not done: a
    run returns without error only by taking a [nil] from the errors
    channel. Neither a drained nor a closed events channel ends it. *)
Lemma LogsBetweenDates_loop_success (events : list (option docker.LogEvent))
    (closed : bool) (errors : list error) (run : M error) :
  run ∈ LogsBetweenDates_loop events closed errors false →
  snd run = Return None →
  head errors = Some None.
Proof.
  revert run. induction events as [|event events IH]; intros run; simpl.
  - destruct closed, errors as [|e errors]; simpl;
      rewrite ?elem_of_cons, ?elem_of_nil;
      intros Hin Hret; destruct_or?; subst; simpl in *;
      try discriminate; try done; by simplify_eq.
  - intros Hin Hret.
    assert (Hcases : run ∈ bindN (send_event event)
              (λ _, LogsBetweenDates_loop events closed errors false)
            ∨ (∃ e, head errors = Some e ∧ run = mret e)
            ∨ run = lift Hangs).
    { destruct (bindN _ _) as [|r rs], errors as [|e errors]; simpl in Hin;
        repeat (rewrite elem_of_app in Hin || rewrite elem_of_cons in Hin
                || rewrite elem_of_nil in Hin);
        rewrite ?elem_of_cons; destruct_or?; subst;
        first [done | by eauto 6]. }
    destruct Hcases as [Hev | [(e & Hhead & ->) | ->] ].
    + destruct (bindN_returns _ _ _ _ Hev Hret) as (_ & run' & _ & Hin' & Hret').
      by apply (IH run').
    + simpl in Hret. by simplify_eq.
    + discriminate.
Qed.

End StreamOperations.

Section StreamSamples.
Import agent observe.

Lemma StreamLogs_unset_since_is_zero_time_witness :
  logs_read_since
    (@StreamLogs sample.marshal_any sample.marshal_string sample.drained
       (sample.srv []) (pb.mkStreamLogsRequest "abc123" None 3) sample.live)
  = Some time.zero.
Proof.
  apply (@StreamLogs_unset_since_is_zero_time sample.marshal_any
           sample.marshal_string sample.drained (sample.srv [])
           (pb.mkStreamLogsRequest "abc123" None 3) sample.live).
  reflexivity.
Defined.

(** C6 as stated fails: whatever the time [now] of the call, here a
    second of November 2023, a request without [since] has its log read
    start at the zero time, not at [now]. *)
Lemma StreamLogs_unset_since_is_not_now :
  ¬ (∀ (now : time.Time) (s : server) (in_ : pb.StreamLogsRequest)
       (out : ServerStream),
       pb.logs_Since in_ = None →
       logs_read_since
         (@StreamLogs sample.marshal_any sample.marshal_string sample.drained
            s in_ out)
       = Some now).
Proof.
  intros Hclaim.
  specialize (Hclaim (time.Unix 1700000000 0) (sample.srv [])
                (pb.mkStreamLogsRequest "abc123" None 3) sample.live eq_refl).
  vm_compute in Hclaim. discriminate.
Qed.

(** C7, where the code departs from it. A range with no event in it,
    the source exhausted, the context alive: whether the generator ends
    by closing its events channel only, or reports the end of the reader
    on the errors channel as well, no run of [LogsBetweenDates] returns
    without error. The closed channel delivers a [nil] event, on which
    [logEventToPb] panics; the end of the reader comes back as the error
    of the stream. *)
Theorem LogsBetweenDates_exhausted_empty_range :
  let in_ := pb.mkLogsBetweenDatesRequest "abc123"
               (Some (pb.mkTimestamp 1700000000 0))
               (Some (pb.mkTimestamp 1700003600 0)) 3 in
  let calls :=
    [Client_ContainerLogsBetweenDates "abc123" (time.mkTime 1700000000 0)
       (time.mkTime 1700003600 0) 3;
     Client_FindContainer "abc123"] in
  @LogsBetweenDates sample.marshal_any sample.marshal_string sample.drained
    (sample.srv []) in_ sample.live
  = [(calls, Panic "invalid memory address or nil pointer dereference")]
  ∧ @LogsBetweenDates sample.marshal_any sample.marshal_string
      sample.drained_EOF (sample.srv []) in_ sample.live
    = [(calls, Panic "invalid memory address or nil pointer dereference");
       (calls, Return (Some io.EOF))].
Proof. split; reflexivity. Qed.

End StreamSamples.

Section RawBytes.
Import agent observe.

Lemma StreamRawBytes_loop_step (data : list Byte.byte) (e : error)
    (reader : io.Reader) (out : ServerStream) (k : nat) :
  StreamRawBytes_loop ((data, e) :: reader) out k
  = (call (Reader_Read 1024) tt ≫= λ _,
     match e with
     | Some e => mret (Some e)
     | None =>
         if bool_decide (length data = 0%nat) then mret None
         else if bool_decide (length data ≤ 1024)%nat then
           call (Send_RawBytes (pb.mkStreamRawBytesResponse data)) (Send out k)
           ≫= λ sent,
             match sent with
             | Some e => mret (Some e)
             | None => StreamRawBytes_loop reader out (S k)
             end
         else lift (Panic "slice bounds out of range")
     end).
Proof. reflexivity. Qed.

Lemma raw_chunks_read (len : nat) (t : list Call) :
  raw_chunks (Reader_Read len :: t) = raw_chunks t.
Proof. reflexivity. Qed.

Lemma raw_chunks_send (r : pb.StreamRawBytesResponse) (t : list Call) :
  raw_chunks (Send_RawBytes r :: t) = pb.Data r :: raw_chunks t.
Proof. reflexivity. Qed.

(** Every chunk forwarded by the loop of [StreamRawBytes] holds between 1
    and 1024 bytes. *)
Lemma StreamRawBytes_loop_chunks (reader : io.Reader) (out : ServerStream)
    (k : nat) :
  Forall (λ chunk, (1 ≤ length chunk ≤ 1024)%nat)
         (raw_chunks (fst (StreamRawBytes_loop reader out k))).
Proof.
  revert k. induction reader as [|[data e] reader IH]; intros k.
  - constructor.
  - rewrite StreamRawBytes_loop_step, bind_call_trace, raw_chunks_read.
    destruct e as [e|]; [constructor|].
    case_bool_decide as Hempty; [constructor|].
    case_bool_decide as Hfits; [|constructor].
    rewrite bind_call_trace, raw_chunks_send.
    constructor; [simpl; lia|].
    destruct (Send out k); [constructor|apply IH].
Qed.

(** The loop returns without error only after a read that gave no byte
    and no error. *)
Lemma StreamRawBytes_loop_success (reader : io.Reader) (out : ServerStream)
    (k : nat) :
  snd (StreamRawBytes_loop reader out k) = Return None →
  ([], None) ∈ reader.
Proof.
  revert k. induction reader as [|[data e] reader IH]; intros k.
  - discriminate.
  - rewrite StreamRawBytes_loop_step, bind_call_end.
    destruct e as [e|]; [discriminate|].
    case_bool_decide as Hempty.
    + intros _. destruct data; [left|discriminate].
    + case_bool_decide as Hfits; [|discriminate].
      rewrite bind_call_end.
      destruct (Send out k); [discriminate|].
      intros Hret. right. by apply (IH (S k)).
Qed.

(** An error returned by the loop is the error of a read (the end of the
    reader included) or of a send. *)
Lemma StreamRawBytes_loop_error (reader : io.Reader) (out : ServerStream)
    (k : nat) (e : err) :
  snd (StreamRawBytes_loop reader out k) = Return (Some e) →
  e = io.EOF ∨ (∃ data, (data, Some e) ∈ reader) ∨ (∃ j, Send out j = Some e).
Proof.
  revert k. induction reader as [|[data e'] reader IH]; intros k.
  - intros [= <-]. by left.
  - rewrite StreamRawBytes_loop_step, bind_call_end.
    destruct e' as [e'|].
    + intros [= ->]. right; left. exists data. left.
    + case_bool_decide as Hempty; [discriminate|].
      case_bool_decide as Hfits; [|discriminate].
      rewrite bind_call_end.
      destruct (Send out k) as [e'|] eqn:Hsend.
      * intros [= ->]. right; right. by exists k.
      * intros Hret.
        destruct (IH (S k) Hret) as [?|[[data' Hin]|?]]; auto.
        right; left. exists data'. by right.
Qed.

(** C8, where the code departs from it. A reader reports that it is
    exhausted by answering [0, io.EOF]; [StreamRawBytes] takes that for a
    failed read and ends the stream with the error [EOF], both on an
    empty source and after the last chunk of a source of two bytes. *)
Theorem StreamRawBytes_clean_end_is_an_error :
  let in_ := pb.mkStreamRawBytesRequest "abc123" None None 3 in
  let read := Client_ContainerLogsBetweenDates "abc123" (time.mkTime 0 0)
                (time.mkTime 0 0) 3 in
  StreamRawBytes (sample.srv []) in_ sample.live
  = ([read; Reader_Read 1024], Return (Some io.EOF))
  ∧ StreamRawBytes (sample.srv [([Byte.x6f; Byte.x6b], None)]) in_ sample.live
    = ([read; Reader_Read 1024;
        Send_RawBytes (pb.mkStreamRawBytesResponse [Byte.x6f; Byte.x6b]);
        Reader_Read 1024],
       Return (Some io.EOF)).
Proof. split; reflexivity. Qed.

End RawBytes.

(** ** Further properties: the docker types *)

Section MoreLogEvents.
Import docker.

Lemma int64_wrap_congruent z : ∃ j, int64_wrap z = z + j * 2 ^ 64.
Proof.
  unfold int64_wrap.
  pose proof (Z.div_mod (z + 2 ^ 63) (2 ^ 64) ltac:(lia)) as Hd.
  exists (- ((z + 2 ^ 63) / 2 ^ 64)). lia.
Qed.

Lemma int64_wrap_add_multiple z j : int64_wrap (z + j * 2 ^ 64) = int64_wrap z.
Proof.
  unfold int64_wrap.
  replace (z + j * 2 ^ 64 + 2 ^ 63) with (z + 2 ^ 63 + j * 2 ^ 64) by lia.
  by rewrite Z.mod_add by lia.
Qed.

(** X1. [ParseContainerAction] either hands its input back unchanged with no
    error, which happens exactly for start, stop and restart, or hands back
    the empty action together with an error whose message names the input;
    the empty action it returns on failure is itself not a valid action. *)
Theorem ParseContainerAction_result (input : string) :
  match snd (ParseContainerAction input) with
  | None =>
      fst (ParseContainerAction input) = input
      ∧ (input = Start ∨ input = Stop ∨ input = Restart)
  | Some e =>
      fst (ParseContainerAction input) = ""%string
      ∧ Error e = ("unknown action: " +:+ input)%string
      ∧ input ≠ Start ∧ input ≠ Stop ∧ input ≠ Restart
      ∧ snd (ParseContainerAction (fst (ParseContainerAction input))) ≠ None
  end.
Proof.
  unfold ParseContainerAction.
  destruct (decide (input = Start)) as [->|HnStart]; [simpl; auto|].
  destruct (decide (input = Stop)) as [->|HnStop]; [simpl; auto|].
  destruct (decide (input = Restart)) as [->|HnRestart]; [simpl; auto|].
  rewrite !bool_decide_eq_false_2 by done. simpl.
  repeat split; done.
Qed.

(** X2. [IsCloseToTime] does not change when both timestamps are moved by
    the same number of seconds, the additions being those of [int64]:
    only the wrapped difference of the timestamps counts. *)
Theorem IsCloseToTime_shift (e1 e2 e1' e2' : LogEvent) (k : Z) :
  Timestamp e1' = int64_wrap (Timestamp e1 + k) →
  Timestamp e2' = int64_wrap (Timestamp e2 + k) →
  IsCloseToTime e1' e2' = IsCloseToTime e1 e2.
Proof.
  intros H1 H2. unfold IsCloseToTime, int64_sub. rewrite H1, H2.
  destruct (int64_wrap_congruent (Timestamp e1 + k)) as [j1 ->].
  destruct (int64_wrap_congruent (Timestamp e2 + k)) as [j2 ->].
  replace (Timestamp e1 + k + j1 * 2 ^ 64 - (Timestamp e2 + k + j2 * 2 ^ 64))
    with (Timestamp e1 - Timestamp e2 + (j1 - j2) * 2 ^ 64) by lia.
  by rewrite int64_wrap_add_multiple.
Qed.

Lemma IsCloseToTime_shift_witness :
  IsCloseToTime (sample.event (MsgString "a") (int64_min + 3) "")
                (sample.event (MsgString "b") (int64_min + 1) "")
  = IsCloseToTime (sample.event (MsgString "a") (int64_max - 2) "")
                  (sample.event (MsgString "b") (int64_max - 4) "").
Proof.
  apply (IsCloseToTime_shift
           (sample.event (MsgString "a") (int64_max - 2) "")
           (sample.event (MsgString "b") (int64_max - 4) "")
           (sample.event (MsgString "a") (int64_min + 3) "")
           (sample.event (MsgString "b") (int64_min + 1) "") 6);
    reflexivity.
Defined.

End MoreLogEvents.

(** ** Further properties: the unary operations *)

Section MoreUnary.
Import agent observe traces.

(** X3. Whatever one of the four unary operations returns is either a
    response with no error or an error with no response, never both and
    never neither. *)
Theorem unary_response_or_error (s : server) (find : pb.FindContainerRequest)
    (act : pb.ContainerActionRequest) :
  response_or_error (FindContainer s find)
  ∧ response_or_error (ListContainers s)
  ∧ response_or_error (HostInfo s)
  ∧ response_or_error (ContainerAction s act).
Proof.
  unfold response_or_error.
  split; [|split; [|split] ]; intros resp e.
  - unfold FindContainer. simpl.
    destruct (docker.store_FindContainer _ _); simpl;
      intros [= <- <-]; by split.
  - unfold ListContainers. simpl.
    destruct (docker.store_ListContainers _); simpl;
      intros [= <- <-]; by split.
  - unfold HostInfo. simpl. intros [= <- <-]. by split.
  - unfold ContainerAction. destruct (action_of_pb _); simpl;
      [destruct (docker.ContainerActions _ _ _); simpl|];
      intros [= <- <-]; by split.
Qed.

Lemma unary_response_or_error_witness :
  (None : option pb.FindContainerResponse) = None
  ↔ status_Error NotFound (Error (sample.no_such_container "gone")) ≠ None.
Proof.
  apply (proj1 (unary_response_or_error (sample.srv [])
                  (pb.mkFindContainerRequest "gone")
                  (pb.mkContainerActionRequest "gone" pb.ContainerAction_Stop))).
  reflexivity.
Defined.

(** X4. [ContainerAction] makes at most one call on its collaborators, and
    when it asks the runtime client to act, it is on the container of the
    request and with an action that [ParseContainerAction] accepts. *)
Theorem ContainerAction_forwards_valid_action (s : server)
    (in_ : pb.ContainerActionRequest) :
  (length (fst (ContainerAction s in_)) ≤ 1)%nat
  ∧ ∀ action id,
      Client_ContainerActions action id ∈ fst (ContainerAction s in_) →
      snd (docker.ParseContainerAction action) = None
      ∧ id = pb.action_ContainerId in_.
Proof.
  destruct (action_of_pb (pb.Action in_)) as [a|] eqn:Haction.
  - rewrite (ContainerAction_forwarded s in_ a Haction). simpl.
    split; [lia|]. intros action id Hin.
    apply list_elem_of_singleton in Hin. simplify_eq.
    split; [|done].
    destruct (pb.Action in_); simpl in Haction; by simplify_eq.
  - unfold ContainerAction. rewrite Haction. simpl.
    split; [lia|]. intros action id Hin. by apply elem_of_nil in Hin.
Qed.

(** X5. For a container that the store both finds and lists, the
    container in the answer of [FindContainer] is the one in the answer of
    [ListContainers] with its stats left out: [FindContainer] never sends
    stats. *)
Theorem FindContainer_agrees_with_ListContainers (s : server) (id : string)
    (c : docker.Container) (cs : list docker.Container) :
  docker.store_FindContainer (store s) id = Ok c →
  docker.store_ListContainers (store s) = Ok cs →
  c ∈ cs →
  ∃ found resp listed,
    snd (FindContainer s (pb.mkFindContainerRequest id))
    = Return (Some (pb.mkFindContainerResponse found), None)
    ∧ snd (ListContainers s) = Return (Some resp, None)
    ∧ listed ∈ pb.Containers resp
    ∧ found = without_stats listed.
Proof.
  intros Hfind Hlist Hin.
  unfold FindContainer, ListContainers. simpl. rewrite Hfind, Hlist. simpl.
  eexists _, _, _. split; [reflexivity|]. split; [reflexivity|]. simpl.
  split; [by apply list_elem_of_fmap_2|]. reflexivity.
Qed.

Lemma FindContainer_agrees_with_ListContainers_witness :
  ∃ found resp listed,
    snd (FindContainer sample2.two_srv (pb.mkFindContainerRequest "def456"))
    = Return (Some (pb.mkFindContainerResponse found), None)
    ∧ snd (ListContainers sample2.two_srv) = Return (Some resp, None)
    ∧ listed ∈ pb.Containers resp
    ∧ found = without_stats listed.
Proof.
  apply (FindContainer_agrees_with_ListContainers sample2.two_srv "def456"
           sample2.api [sample.web; sample2.api]).
  - reflexivity.
  - reflexivity.
  - right. left.
Defined.

(** X6. [ListContainers] asks the store only, and answers with one wire
    container for each container of the store, in the order of the store,
    each with all the stat samples of its ring buffer, in their order. *)
Theorem ListContainers_keeps_order (s : server) (cs : list docker.Container) :
  docker.store_ListContainers (store s) = Ok cs →
  ∃ resp,
    ListContainers s = ([Store_ListContainers], Return (Some resp, None))
    ∧ pb.container_Id <$> pb.Containers resp = docker.ID <$> cs
    ∧ (λ p, pb_stat_values <$> pb.Stats p) <$> pb.Containers resp
      = (λ c, stat_values <$> docker.Stats c) <$> cs.
Proof.
  intros Hlist. unfold ListContainers. rewrite Hlist. simpl.
  eexists. split; [reflexivity|]. simpl. split.
  - rewrite <- list_fmap_compose. by apply list_fmap_ext.
  - rewrite <- list_fmap_compose. apply list_fmap_ext. intros i c _. simpl.
    rewrite <- list_fmap_compose. by apply list_fmap_ext.
Qed.

Lemma ListContainers_keeps_order_witness :
  ∃ resp,
    ListContainers sample2.two_srv
    = ([Store_ListContainers], Return (Some resp, None))
    ∧ pb.container_Id <$> pb.Containers resp = ["abc123"; "def456"]
    ∧ (λ p, pb_stat_values <$> pb.Stats p) <$> pb.Containers resp
      = [ []; [("def456", 11, 22, 33); ("def456", 44, 55, 66)] ].
Proof.
  apply (ListContainers_keeps_order sample2.two_srv [sample.web; sample2.api]).
  reflexivity.
Defined.



End MoreUnary.

(** ** Further properties: the wire form of a log event *)

Section MoreWireEvents.
Import docker agent observe.
Context {marshal_any : JSONMarshaler any} {marshal_string : JSONMarshaler string}.

(** X8. The ways [logEventToPb] can end. It returns for an event whose
    message is a string or an ordered map, with the timestamp as whole
    seconds, the identifier, the container, the level, the stream and the
    position of the event, and with a payload unless the message is a
    string that is not valid UTF-8; it panics on a [nil] event only; it
    ends the process on a message of another type only, naming the
    type. *)
Theorem logEventToPb_outcome (event : option LogEvent) :
  match logEventToPb event with
  | Return p =>
      ∃ e, event = Some e
           ∧ (∀ typeName, event_Message e ≠ MsgOther typeName)
           ∧ (pb.Message p = None
              ↔ ∃ data, event_Message e = MsgString data
                        ∧ utf8.ValidString data = false)
           ∧ pb.event_Timestamp p = pb.mkTimestamp (Timestamp e) 0
           ∧ pb.Id p = Id e
           ∧ pb.ContainerId p = ContainerID e
           ∧ pb.Level p = Level e
           ∧ pb.Stream p = Stream e
           ∧ pb.Position p = Position e
  | Panic _ => event = None
  | Fatal msg =>
      ∃ e typeName, event = Some e ∧ event_Message e = MsgOther typeName
                    ∧ msg = ("agent server: unknown type " +:+ typeName)%string
  | Hangs => False
  end.
Proof.
  destruct event as [e|]; [|done]. unfold logEventToPb, anypb_New.
  destruct (event_Message e) as [data|data|data|typeName] eqn:Hm; simpl.
  - exists e. split; [done|]. split; [by intros typeName; rewrite Hm|].
    split; [|done].
    destruct (utf8.ValidString data) eqn:Hvalid; simpl; split.
    + discriminate.
    + intros (data' & ? & ?). simplify_eq. congruence.
    + intros _. by exists data.
    + done.
  - exists e. split; [done|]. split; [by intros typeName; rewrite Hm|].
    split; [|done]. split; [discriminate|]. intros (data' & ? & ?); congruence.
  - exists e. split; [done|]. split; [by intros typeName; rewrite Hm|].
    split; [|done]. split; [discriminate|]. intros (data' & ? & ?); congruence.
  - by exists e, typeName.
Qed.

(** X9. [orderedMapToJSONBytes] never fails. Its result is empty exactly
    when the map could not be marshalled, the error being dropped;
    otherwise it ends with a newline, and a [nil] map gives [null] and a
    newline. *)
Theorem orderedMapToJSONBytes_empty_or_line {T : Type} `{JSONMarshaler T}
    (data : option (OrderedMap T)) :
  (orderedMapToJSONBytes data = []
   ↔ ∃ m e, data = Some m ∧ MarshalJSON m = Fail e)
  ∧ (orderedMapToJSONBytes data ≠ [] →
     last (orderedMapToJSONBytes data) = Some Byte.x0a)
  ∧ (data = None →
     orderedMapToJSONBytes data
     = String.list_byte_of_string "null" ++ [Byte.x0a]).
Proof.
  unfold orderedMapToJSONBytes, json_Encode.
  destruct data as [m|]; [destruct (MarshalJSON m) as [text|e] eqn:Hm|];
    simpl; repeat split; try done.
  - intros Hnil. destruct text; simpl in Hnil; discriminate.
  - intros (m' & e & ? & ?). simplify_eq. congruence.
  - intros _. apply last_snoc.
  - eauto.
  - intros (m' & e & ? & ?). discriminate.
Qed.

End MoreWireEvents.

Lemma orderedMapToJSONBytes_empty_or_line_witness :
  @agent.orderedMapToJSONBytes _ sample.marshal_any
    (Some [("pid", docker.JNumber 4607182418800017408)]) = []
  ∧ last (@agent.orderedMapToJSONBytes _ sample.marshal_string
            (Some [("level", "info")])) = Some Byte.x0a.
Proof.
  split.
  - apply (@orderedMapToJSONBytes_empty_or_line _ sample.marshal_any
             (Some [("pid", docker.JNumber 4607182418800017408)])).
    eexists _, _. split; reflexivity.
  - apply (@orderedMapToJSONBytes_empty_or_line _ sample.marshal_string
             (Some [("level", "info")])).
    discriminate.
Defined.

(** ** Further properties: the raw byte stream *)

Section MoreRawBytes.
Import agent observe traces.

Lemma StreamRawBytes_loop_prefix (reader : io.Reader) (out : ServerStream)
    (k : nat) :
  raw_chunks (fst (StreamRawBytes_loop reader out k)) `prefix_of` (fst <$> reader).
Proof.
  revert k. induction reader as [|[data e] reader IH]; intros k.
  - apply prefix_nil.
  - rewrite StreamRawBytes_loop_step, bind_call_trace, raw_chunks_read.
    destruct e as [e|]; [apply prefix_nil|].
    case_bool_decide as Hempty; [apply prefix_nil|].
    case_bool_decide as Hfits; [|apply prefix_nil].
    rewrite bind_call_trace, raw_chunks_send. simpl.
    apply prefix_cons.
    destruct (Send out k); [apply prefix_nil|apply IH].
Qed.


(** The handler, once the client has answered. *)
Lemma StreamRawBytes_opened (s : server) (in_ : pb.StreamRawBytesRequest)
    (out : ServerStream) :
  let opened :=
    docker.ContainerLogsBetweenDates (client s) (pb.raw_ContainerId in_)
      (AsTime (pb.raw_Since in_)) (AsTime (pb.raw_Until in_))
      (pb.raw_StreamTypes in_) in
  raw_chunks (fst (StreamRawBytes s in_ out))
  = match opened with
    | Ok reader => raw_chunks (fst (StreamRawBytes_loop reader out 0))
    | Fail _ => []
    end
  ∧ snd (StreamRawBytes s in_ out)
    = match opened with
      | Ok reader => snd (StreamRawBytes_loop reader out 0)
      | Fail e => Return (Some e)
      end.
Proof.
  unfold StreamRawBytes. rewrite bind_call_trace, bind_call_end.
  by destruct (docker.ContainerLogsBetweenDates _ _ _ _ _).
Qed.

(** X10. The chunks [StreamRawBytes] sends are, in order and unchanged,
    the bytes of the first reads of the reader the client opened, one
    message for each read and each of 1 to 1024 bytes; when the client
    cannot open the reader nothing is sent. *)
Theorem StreamRawBytes_forwards_reads (s : server)
    (in_ : pb.StreamRawBytesRequest) (out : ServerStream) :
  Forall (λ chunk, (1 ≤ length chunk ≤ 1024)%nat)
         (raw_chunks (fst (StreamRawBytes s in_ out)))
  ∧ match docker.ContainerLogsBetweenDates (client s) (pb.raw_ContainerId in_)
            (AsTime (pb.raw_Since in_)) (AsTime (pb.raw_Until in_))
            (pb.raw_StreamTypes in_) with
    | Ok reader =>
        raw_chunks (fst (StreamRawBytes s in_ out)) `prefix_of` (fst <$> reader)
    | Fail e => raw_chunks (fst (StreamRawBytes s in_ out)) = []
    end.
Proof.
  destruct (StreamRawBytes_opened s in_ out) as [-> _].
  destruct (docker.ContainerLogsBetweenDates _ _ _ _ _) as [reader|e].
  - split; [apply StreamRawBytes_loop_chunks|apply StreamRawBytes_loop_prefix].
  - split; [constructor|done].
Qed.

(** X11. Where the result of [StreamRawBytes] comes from. It returns
    without error only after a read that gave no byte and no error. An
    error it returns is the error of the client that could not open the
    reader, the error of a read (the end of the reader included), or the
    error of a send. *)
Theorem StreamRawBytes_result_origin (s : server)
    (in_ : pb.StreamRawBytesRequest) (out : ServerStream) :
  let opened :=
    docker.ContainerLogsBetweenDates (client s) (pb.raw_ContainerId in_)
      (AsTime (pb.raw_Since in_)) (AsTime (pb.raw_Until in_))
      (pb.raw_StreamTypes in_) in
  (snd (StreamRawBytes s in_ out) = Return None →
   ∃ reader, opened = Ok reader ∧ ([], None) ∈ reader)
  ∧ (∀ e, snd (StreamRawBytes s in_ out) = Return (Some e) →
     opened = Fail e
     ∨ ∃ reader, opened = Ok reader
         ∧ (e = io.EOF ∨ (∃ data, (data, Some e) ∈ reader)
            ∨ ∃ j, Send out j = Some e)).
Proof.
  intros opened. destruct (StreamRawBytes_opened s in_ out) as [_ ->].
  fold opened. destruct opened as [reader|e0]; split.
  - intros Hret. exists reader. split; [done|].
    by apply (StreamRawBytes_loop_success reader out 0%nat).
  - intros e Hret. right. exists reader. split; [done|].
    by apply (StreamRawBytes_loop_error reader out 0%nat).
  - discriminate.
  - intros e [= ->]. by left.
Qed.

Lemma StreamRawBytes_result_origin_witness :
  ∃ reader,
    docker.ContainerLogsBetweenDates (client (sample.srv [([], None)])) "abc123"
      (AsTime None) (AsTime None) 3 = Ok reader
    ∧ ([], None) ∈ reader.
Proof.
  apply (StreamRawBytes_result_origin (sample.srv [([], None)])
           (pb.mkStreamRawBytesRequest "abc123" None None 3) sample.live).
  reflexivity.
Defined.



End MoreRawBytes.

(** ** Further properties: the log streams *)

Section MoreLogStreams.
Import agent observe traces.
Context {marshal_any : JSONMarshaler docker.any}
        {marshal_string : JSONMarshaler string}.
Variable NewEventGenerator :
  io.Reader → docker.Container → docker.EventGenerator.

(** Sending one event: one message when the event converts, the end of the
    conversion otherwise. *)
Lemma send_event_unfold (event : option docker.LogEvent) :
  send_event event
  = match logEventToPb event with
    | Return p => ([Send_Logs (pb.mkStreamLogsResponse p)], Return tt)
    | Panic msg => ([], Panic msg)
    | Fatal msg => ([], Fatal msg)
    | Hangs => ([], Hangs)
    end.
Proof. unfold send_event. by destruct (logEventToPb event). Qed.

Lemma sent_events_sends (ps : list pb.LogEvent) :
  sent_events ((λ p, Send_Logs (pb.mkStreamLogsResponse p)) <$> ps) = ps.
Proof. induction ps as [|p ps IH]; [done|]. simpl. by f_equal. Qed.

Lemma StreamLogs_range_all (events : list (option docker.LogEvent))
    (ps : list pb.LogEvent) :
  Forall2 (λ event p, logEventToPb event = Return p) events ps →
  StreamLogs_range events
  = ((λ p, Send_Logs (pb.mkStreamLogsResponse p)) <$> ps, Return tt).
Proof.
  induction 1 as [|event p events ps Hp _ IH]; [done|].
  cbn [StreamLogs_range]. rewrite send_event_unfold, Hp, IH. reflexivity.
Qed.

Lemma StreamLogs_range_stops (events rest : list (option docker.LogEvent))
    (ps : list pb.LogEvent) (bad : option docker.LogEvent) :
  Forall2 (λ event p, logEventToPb event = Return p) events ps →
  returns (logEventToPb bad) = false →
  fst (StreamLogs_range (events ++ bad :: rest))
  = (λ p, Send_Logs (pb.mkStreamLogsResponse p)) <$> ps
  ∧ returns (snd (StreamLogs_range (events ++ bad :: rest))) = false.
Proof.
  intros Hps Hbad. induction Hps as [|event p events ps Hp _ IH].
  - cbn [app StreamLogs_range]. rewrite send_event_unfold.
    by destruct (logEventToPb bad).
  - cbn [app StreamLogs_range]. rewrite send_event_unfold, Hp.
    destruct IH as [IHt IHr].
    destruct (StreamLogs_range (events ++ bad :: rest)) as [t r].
    simpl in *. by subst.
Qed.

(** X13. When the client opens the log and the store finds the container,
    and the generator delivers events that all convert and then closes its
    events channel, [StreamLogs] sends one message for each event, in the
    order of the generator, after its two calls on the collaborators; it
    then returns the error waiting on the errors channel, or [nil] when
    there is none. *)
Theorem StreamLogs_forwards_in_order (s : server) (in_ : pb.StreamLogsRequest)
    (out : ServerStream) (reader : io.Reader) (container : docker.Container)
    (ps : list pb.LogEvent) :
  let id := pb.logs_ContainerId in_ in
  let since := match pb.logs_Since in_ with
               | Some ts => AsTime (Some ts)
               | None => time.zero
               end in
  let g := NewEventGenerator reader container in
  docker.ContainerLogs (client s) id since (pb.logs_StreamTypes in_) = Ok reader →
  docker.store_FindContainer (store s) id = Ok container →
  docker.Events_closed g = true →
  Forall2 (λ event p, logEventToPb event = Return p) (docker.Events g) ps →
  StreamLogs NewEventGenerator s in_ out
  = ([Client_ContainerLogs id since (pb.logs_StreamTypes in_);
      Store_FindContainer id]
     ++ ((λ p, Send_Logs (pb.mkStreamLogsResponse p)) <$> ps),
     Return (default None (head (docker.Errors g)))).
Proof.
  intros id since g Hopen Hfind Hclosed Hps.
  unfold StreamLogs. fold id since. simpl. rewrite Hopen. simpl.
  rewrite Hfind. simpl. fold g.
  rewrite (StreamLogs_range_all _ _ Hps), Hclosed. simpl.
  by destruct (docker.Errors g) as [|e errors]; simpl; rewrite app_nil_r.
Qed.

(** X14. [StreamLogs] stops at the first event it cannot convert (a [nil]
    event, or a message that is neither a string nor an ordered map): the
    events before it have been sent, nothing after it is, and the handler
    does not return. *)
Theorem StreamLogs_stops_at_bad_event (s : server) (in_ : pb.StreamLogsRequest)
    (out : ServerStream) (reader : io.Reader) (container : docker.Container)
    (good rest : list (option docker.LogEvent)) (bad : option docker.LogEvent)
    (ps : list pb.LogEvent) :
  let id := pb.logs_ContainerId in_ in
  let since := match pb.logs_Since in_ with
               | Some ts => AsTime (Some ts)
               | None => time.zero
               end in
  docker.ContainerLogs (client s) id since (pb.logs_StreamTypes in_) = Ok reader →
  docker.store_FindContainer (store s) id = Ok container →
  docker.Events (NewEventGenerator reader container) = good ++ bad :: rest →
  Forall2 (λ event p, logEventToPb event = Return p) good ps →
  returns (logEventToPb bad) = false →
  sent_events (fst (StreamLogs NewEventGenerator s in_ out)) = ps
  ∧ returns (snd (StreamLogs NewEventGenerator s in_ out)) = false.
Proof.
  intros id since Hopen Hfind Hevents Hps Hbad.
  unfold StreamLogs. fold id since. simpl. rewrite Hopen. simpl.
  rewrite Hfind. simpl. rewrite Hevents.
  destruct (StreamLogs_range_stops good rest ps bad Hps Hbad) as [Ht Hr].
  destruct (StreamLogs_range (good ++ bad :: rest)) as [t r]. simpl in *.
  subst t. destruct r; try discriminate; simpl; (split; [|done]);
    apply sent_events_sends.
Qed.

(** X15. When [StreamLogs] cannot open the log it returns the error of the
    client as it is, without asking the store; when the store does not
    find the container it returns the error of the store as it is. In
    both cases nothing is sent. *)
Theorem StreamLogs_open_failure (s : server) (in_ : pb.StreamLogsRequest)
    (out : ServerStream) :
  let id := pb.logs_ContainerId in_ in
  let since := match pb.logs_Since in_ with
               | Some ts => AsTime (Some ts)
               | None => time.zero
               end in
  let std := pb.logs_StreamTypes in_ in
  (∀ e, docker.ContainerLogs (client s) id since std = Fail e →
        StreamLogs NewEventGenerator s in_ out
        = ([Client_ContainerLogs id since std], Return (Some e)))
  ∧ (∀ reader e,
       docker.ContainerLogs (client s) id since std = Ok reader →
       docker.store_FindContainer (store s) id = Fail e →
       StreamLogs NewEventGenerator s in_ out
       = ([Client_ContainerLogs id since std; Store_FindContainer id],
          Return (Some e))).
Proof.
  intros id since std. unfold StreamLogs. fold id since std. split.
  - intros e Hopen. simpl. by rewrite Hopen.
  - intros reader e Hopen Hfind. simpl. rewrite Hopen. simpl. by rewrite Hfind.
Qed.

End MoreLogStreams.

Section LogStreamSamples.
Import agent observe traces.

Lemma StreamLogs_forwards_in_order_witness :
  ∃ p1 p2,
    @StreamLogs sample.marshal_any sample.marshal_string sample2.two_lines
      (sample.srv []) (pb.mkStreamLogsRequest "abc123" None 3) sample.live
    = ([Client_ContainerLogs "abc123" time.zero 3; Store_FindContainer "abc123";
        Send_Logs (pb.mkStreamLogsResponse p1);
        Send_Logs (pb.mkStreamLogsResponse p2)],
       Return None)
    ∧ pb.Message p1
      = Some (pb.AnySimpleMessage (pb.mkSimpleMessage "starting"))
    ∧ pb.Message p2 = Some (pb.AnySimpleMessage (pb.mkSimpleMessage "ready")).
Proof.
  eexists _, _. split.
  - apply (@StreamLogs_forwards_in_order sample.marshal_any
             sample.marshal_string sample2.two_lines (sample.srv [])
             (pb.mkStreamLogsRequest "abc123" None 3) sample.live []
             sample.web [_; _]).
    + reflexivity.
    + reflexivity.
    + reflexivity.
    + constructor; [reflexivity|]. constructor; [reflexivity|]. constructor.
  - split; reflexivity.
Defined.

Lemma StreamLogs_stops_at_bad_event_witness :
  ∃ p1,
    sent_events
      (fst (@StreamLogs sample.marshal_any sample.marshal_string
              sample2.nil_in_the_middle (sample.srv [])
              (pb.mkStreamLogsRequest "abc123" None 3) sample.live))
    = [p1]
    ∧ returns
        (snd (@StreamLogs sample.marshal_any sample.marshal_string
                sample2.nil_in_the_middle (sample.srv [])
                (pb.mkStreamLogsRequest "abc123" None 3) sample.live))
      = false.
Proof.
  eexists.
  apply (@StreamLogs_stops_at_bad_event sample.marshal_any
           sample.marshal_string sample2.nil_in_the_middle (sample.srv [])
           (pb.mkStreamLogsRequest "abc123" None 3) sample.live []
           sample.web
           [Some (sample.event (docker.MsgString "starting") 1700000000 "")]
           [Some (sample.event (docker.MsgString "ready") 1700000001 "info")]
           None [_]).
  - reflexivity.
  - reflexivity.
  - reflexivity.
  - constructor; [reflexivity|]. constructor.
  - reflexivity.
Defined.

Lemma StreamLogs_open_failure_witness :
  @StreamLogs sample.marshal_any sample.marshal_string sample2.two_lines
    (sample.srv []) (pb.mkStreamLogsRequest "gone" None 3) sample.live
  = ([Client_ContainerLogs "gone" time.zero 3],
     Return (Some (sample.no_such_container "gone"))).
Proof.
  apply (proj1 (@StreamLogs_open_failure sample.marshal_any
                  sample.marshal_string sample2.two_lines (sample.srv [])
                  (pb.mkStreamLogsRequest "gone" None 3) sample.live)).
  reflexivity.
Defined.

End LogStreamSamples.

(** ** Further properties: the bounded log stream *)

Section MoreBetweenDates.
Import agent observe traces.
Context {marshal_any : JSONMarshaler docker.any}
        {marshal_string : JSONMarshaler string}.
Variable NewEventGenerator :
  io.Reader → docker.Container → docker.EventGenerator.



(** The runs of the handler, by how far the opening got. *)
Lemma LogsBetweenDates_opened (s : server) (in_ : pb.LogsBetweenDatesRequest)
    (out : ServerStream) (run : M error) :
  let id := pb.between_ContainerId in_ in
  let read :=
    Client_ContainerLogsBetweenDates id (AsTime (pb.between_Since in_))
      (AsTime (pb.between_Until in_)) (pb.between_StreamTypes in_) in
  let opened :=
    docker.ContainerLogsBetweenDates (client s) id
      (AsTime (pb.between_Since in_)) (AsTime (pb.between_Until in_))
      (pb.between_StreamTypes in_) in
  run ∈ LogsBetweenDates NewEventGenerator s in_ out →
  (∃ e, opened = Fail e ∧ run = ([read], Return (Some e)))
  ∨ (∃ reader e,
       opened = Ok reader
       ∧ docker.client_FindContainer (client s) id = Fail e
       ∧ run = ([read; Client_FindContainer id], Return (Some e)))
  ∨ (∃ reader container run',
       opened = Ok reader
       ∧ docker.client_FindContainer (client s) id = Ok container
       ∧ run' ∈ LogsBetweenDates_loop
                  (docker.Events (NewEventGenerator reader container))
                  (docker.Events_closed (NewEventGenerator reader container))
                  (docker.Errors (NewEventGenerator reader container))
                  (Context_Done out)
       ∧ run = (read :: Client_FindContainer id :: fst run', snd run')).
Proof.
  intros id read opened. unfold LogsBetweenDates. fold id opened. simpl.
  destruct opened as [reader|e].
  - destruct (docker.client_FindContainer (client s) id) as [container|e].
    + simpl. rewrite <- list_fmap_compose.
      intros ([t r] & -> & Hin)%list_elem_of_fmap.
      right; right. by exists reader, container, (t, r).
    + simpl. intros ->%list_elem_of_singleton. right; left. by exists reader, e.
  - simpl. intros ->%list_elem_of_singleton. left. by exists e.
Qed.

Lemma LogsBetweenDates_loop_nil (closed : bool) (errors : list error)
    (done : bool) (run : M error) :
  run ∈ LogsBetweenDates_loop [] closed errors done → fst run = [].
Proof.
  destruct closed, errors as [|e errors], done; simpl;
    repeat (rewrite elem_of_cons || rewrite elem_of_nil);
    intros Hin; destruct_or?; by subst.
Qed.

Lemma LogsBetweenDates_loop_cons (event : option docker.LogEvent)
    (events : list (option docker.LogEvent)) (closed : bool)
    (errors : list error) (done : bool) (run : M error) :
  run ∈ LogsBetweenDates_loop (event :: events) closed errors done →
  run ∈ bindN (send_event event)
          (λ _, LogsBetweenDates_loop events closed errors done)
  ∨ fst run = [].
Proof.
  simpl.
  destruct (bindN _ _) as [|r rs], errors as [|e errors], done; simpl;
    repeat (rewrite elem_of_app || rewrite elem_of_cons
            || rewrite elem_of_nil);
    intros Hin; destruct_or?; subst; auto.
Qed.

Lemma LogsBetweenDates_loop_prefix (events : list (option docker.LogEvent))
    (closed : bool) (errors : list error) (done : bool) (run : M error) :
  run ∈ LogsBetweenDates_loop events closed errors done →
  ∃ n, Forall2 (λ event p, logEventToPb event = Return p)
               (take n events) (sent_events (fst run)).
Proof.
  revert run. induction events as [|event events IH]; intros run Hin.
  - apply LogsBetweenDates_loop_nil in Hin. exists 0%nat. rewrite Hin.
    constructor.
  - apply LogsBetweenDates_loop_cons in Hin as [Hin|Hnil].
    + rewrite send_event_unfold in Hin.
      destruct (logEventToPb event) as [p|msg|msg|] eqn:Hp; simpl in Hin;
        try (apply list_elem_of_singleton in Hin; subst run; exists 0%nat;
             constructor).
      apply list_elem_of_fmap in Hin as ([t r] & -> & Hin).
      destruct (IH _ Hin) as [n Hn]. exists (S n). simpl. by constructor.
    + exists 0%nat. rewrite Hnil. constructor.
Qed.

(** X16. [LogsBetweenDates] returns without error only when the context of
    the stream is done, or when the generator has put a [nil] on its
    errors channel: neither the last event nor the closing of the events
    channel ends the stream with success. *)
Theorem LogsBetweenDates_success_needs_cancel (s : server)
    (in_ : pb.LogsBetweenDatesRequest) (out : ServerStream) (run : M error) :
  run ∈ LogsBetweenDates NewEventGenerator s in_ out →
  snd run = Return None →
  Context_Done out = true
  ∨ ∃ reader container,
      docker.ContainerLogsBetweenDates (client s) (pb.between_ContainerId in_)
        (AsTime (pb.between_Since in_)) (AsTime (pb.between_Until in_))
        (pb.between_StreamTypes in_) = Ok reader
      ∧ docker.client_FindContainer (client s) (pb.between_ContainerId in_)
        = Ok container
      ∧ head (docker.Errors (NewEventGenerator reader container)) = Some None.
Proof.
  intros Hin Hret.
  destruct (Context_Done out) eqn:Hdone; [by left|right].
  apply LogsBetweenDates_opened in Hin
    as [(e & _ & ->)|[(reader & e & _ & _ & ->)
                     |(reader & container & run' & Hopen & Hfind & Hin & ->)] ];
    try discriminate.
  exists reader, container. repeat split; try done.
  rewrite Hdone in Hin. by apply (LogsBetweenDates_loop_success _ _ _ _ Hin).
Qed.

(** X17. In every run of [LogsBetweenDates] the events sent are the first
    events of the generator, converted, in the order of the generator:
    no event is sent twice, out of order, or before an earlier one. *)
Theorem LogsBetweenDates_sends_prefix (s : server)
    (in_ : pb.LogsBetweenDatesRequest) (out : ServerStream) (run : M error) :
  run ∈ LogsBetweenDates NewEventGenerator s in_ out →
  sent_events (fst run) = []
  ∨ ∃ reader container n,
      docker.ContainerLogsBetweenDates (client s) (pb.between_ContainerId in_)
        (AsTime (pb.between_Since in_)) (AsTime (pb.between_Until in_))
        (pb.between_StreamTypes in_) = Ok reader
      ∧ docker.client_FindContainer (client s) (pb.between_ContainerId in_)
        = Ok container
      ∧ Forall2 (λ event p, logEventToPb event = Return p)
          (take n (docker.Events (NewEventGenerator reader container)))
          (sent_events (fst run)).
Proof.
  intros Hin.
  apply LogsBetweenDates_opened in Hin
    as [(e & _ & ->)|[(reader & e & _ & _ & ->)
                     |(reader & container & run' & Hopen & Hfind & Hin & ->)] ];
    [by left|by left|right].
  destruct (LogsBetweenDates_loop_prefix _ _ _ _ _ Hin) as [n Hn].
  by exists reader, container, n.
Qed.


End MoreBetweenDates.

Section BetweenDatesSamples.
Import agent observe traces.

Lemma LogsBetweenDates_success_needs_cancel_witness :
  Context_Done sample2.cancelled = true
  ∨ ∃ reader container,
      docker.ContainerLogsBetweenDates (client (sample.srv [])) "abc123"
        (AsTime None) (AsTime None) 3 = Ok reader
      ∧ docker.client_FindContainer (client (sample.srv [])) "abc123"
        = Ok container
      ∧ head (docker.Errors (sample2.two_lines reader container)) = Some None.
Proof.
  apply (@LogsBetweenDates_success_needs_cancel sample.marshal_any
           sample.marshal_string sample2.two_lines (sample.srv [])
           (pb.mkLogsBetweenDatesRequest "abc123" None None 3)
           sample2.cancelled
           ([Client_ContainerLogsBetweenDates "abc123" (time.mkTime 0 0)
               (time.mkTime 0 0) 3;
             Client_FindContainer "abc123"], Return None)).
  - apply list_elem_of_In. vm_compute. tauto.
  - reflexivity.
Defined.

Lemma LogsBetweenDates_sends_prefix_witness :
  ∃ run,
    run ∈ @LogsBetweenDates sample.marshal_any sample.marshal_string
            sample2.two_lines (sample.srv [])
            (pb.mkLogsBetweenDatesRequest "abc123" None None 3) sample.live
    ∧ length (sent_events (fst run)) = 2%nat
    ∧ (sent_events (fst run) = []
       ∨ ∃ reader container n,
           docker.ContainerLogsBetweenDates (client (sample.srv [])) "abc123"
             (AsTime None) (AsTime None) 3 = Ok reader
           ∧ docker.client_FindContainer (client (sample.srv [])) "abc123"
             = Ok container
           ∧ Forall2 (λ event p,
                        @logEventToPb sample.marshal_any sample.marshal_string
                          event = Return p)
               (take n (docker.Events (sample2.two_lines reader container)))
               (sent_events (fst run))).
Proof.
  eexists. split; [|split].
  - apply list_elem_of_In. vm_compute. left. reflexivity.
  - reflexivity.
  - apply (@LogsBetweenDates_sends_prefix sample.marshal_any
             sample.marshal_string sample2.two_lines (sample.srv [])
             (pb.mkLogsBetweenDatesRequest "abc123" None None 3) sample.live).
    apply list_elem_of_In. vm_compute. left. reflexivity.
Defined.


End BetweenDatesSamples.

(** ** Further properties: the subscription streams *)

Section MoreSubscriptions.
Import agent traces streams.

Lemma subscription_loop_runs {E R : Type} (response : E → R) (feed : list E)
    (done : bool) (run : Run R) :
  run ∈ subscription_loop response feed done →
  ∃ n, fst run = response <$> take n feed
       ∧ (snd run = Return None ∧ done = true
          ∨ snd run = Hangs ∧ done = false ∧ (length feed ≤ n)%nat).
Proof.
  revert run. induction feed as [|value feed IH]; intros run.
  - destruct done; simpl; intros ->%list_elem_of_singleton; exists 0%nat;
      simpl; auto.
  - intros Hin.
    assert (Hcases :
      (∃ run', run' ∈ subscription_loop response feed done
               ∧ run = (response value :: fst run', snd run'))
      ∨ (done = true ∧ run = ([], Return None))).
    { simpl in Hin.
      destruct (subscription_loop response feed done) as [|r rs] eqn:Hloop.
      - destruct done; simpl in Hin;
          apply list_elem_of_singleton in Hin; subst; [by right|].
        exfalso. clear -Hloop.
        destruct feed as [|v feed]; simpl in Hloop; [discriminate|].
        destruct (_ <$> _) in Hloop; discriminate.
      - simpl in Hin. rewrite elem_of_cons, elem_of_app in Hin.
        destruct Hin as [->|[Hin|Hin] ].
        + left. exists r. split; [left|by destruct r].
        + apply list_elem_of_fmap in Hin as ([t e] & -> & Hin).
          left. exists (t, e). split; [by right|done].
        + destruct done; [|by apply elem_of_nil in Hin].
          apply list_elem_of_singleton in Hin. by right. }
    destruct Hcases as [(run' & Hin' & ->)|[-> ->] ].
    + destruct (IH run' Hin') as (n & Ht & Hend). exists (S n). simpl.
      split; [by rewrite Ht|]. destruct Hend as [?|(? & ? & ?)]; [by left|].
      right. repeat split; try done. lia.
    + exists 0%nat. simpl. auto.
Qed.

Lemma subscription_loop_cons {E R : Type} (response : E → R) (value : E)
    (feed : list E) (done : bool) :
  subscription_loop response (value :: feed) done
  = match ((λ '(sent, r), (response value :: sent, r))
             <$> subscription_loop response feed done)
          ++ (if done then [ ([], Return None) ] else []) with
    | [] => [ ([], Hangs) ]
    | runs => runs
    end.
Proof. reflexivity. Qed.

Lemma elem_of_or_default {A : Type} (l d : list A) (x : A) :
  x ∈ l → x ∈ match l with [] => d | y :: l' => y :: l' end.
Proof. destruct l; [by intros ?%elem_of_nil|done]. Qed.

Lemma subscription_loop_cancel {E R : Type} (response : E → R) (feed : list E)
    (n : nat) :
  (response <$> take n feed, Return None)
  ∈ subscription_loop response feed true.
Proof.
  revert n. induction feed as [|value feed IH]; intros n.
  - rewrite take_nil. simpl. left.
  - rewrite subscription_loop_cons. apply elem_of_or_default, elem_of_app.
    destruct n as [|n].
    + right. left.
    + left. apply list_elem_of_fmap.
      by exists (response <$> take n feed, Return None).
Qed.

Variable SubscribeEvents : docker.ContainerStore → list docker.ContainerEvent.
Variable SubscribeStats : docker.ContainerStore → list docker.ContainerStat.
Variable SubscribeNewContainers :
  docker.ContainerStore → list docker.Container.

(** X19. Every run of [StreamEvents] sends the first events the store
    publishes, in the order of the store, each with its actor, name and
    host. The handler never returns an error: it returns [nil], and only
    when the context of the stream is done; while the context lives it
    sends every event and then waits. *)
Theorem StreamEvents_runs (s : server) (out : ServerStream)
    (run : Run pbstream.StreamEventsResponse) :
  run ∈ StreamEvents SubscribeEvents s out →
  ∃ n,
    (λ r, pb_event_values (pbstream.Event r)) <$> fst run
    = event_values <$> take n (SubscribeEvents (store s))
    ∧ (snd run = Return None ∧ Context_Done out = true
       ∨ snd run = Hangs ∧ Context_Done out = false
         ∧ (length (SubscribeEvents (store s)) ≤ n)%nat).
Proof.
  intros Hin. apply subscription_loop_runs in Hin as (n & Ht & Hend).
  exists n. split; [|done]. rewrite Ht, <- list_fmap_compose.
  by apply list_fmap_ext.
Qed.

(** X20. Every run of [StreamStats] sends the first samples the store
    publishes, in the order of the store, each with its four values. The
    handler never returns an error and returns only when the context of
    the stream is done. *)
Theorem StreamStats_runs (s : server) (out : ServerStream)
    (run : Run pbstream.StreamStatsResponse) :
  run ∈ StreamStats SubscribeStats s out →
  ∃ n,
    (λ r, pb_stat_values (pbstream.Stat r)) <$> fst run
    = stat_values <$> take n (SubscribeStats (store s))
    ∧ (snd run = Return None ∧ Context_Done out = true
       ∨ snd run = Hangs ∧ Context_Done out = false
         ∧ (length (SubscribeStats (store s)) ≤ n)%nat).
Proof.
  intros Hin. apply subscription_loop_runs in Hin as (n & Ht & Hend).
  exists n. split; [|done]. rewrite Ht, <- list_fmap_compose.
  by apply list_fmap_ext.
Qed.

(** X21. Every run of [StreamContainerStarted] sends the first containers
    the store announces, in the order of the store, each with its
    identifier, name, image and image identifier, its state, health, host
    and group, its terminal flag, its labels and its times of creation
    and of start, and each without its command and without stats. The handler never returns an
    error and returns only when the context of the stream is done. *)
Theorem StreamContainerStarted_runs (s : server) (out : ServerStream)
    (run : Run pbstream.StreamContainerStartedResponse) :
  run ∈ StreamContainerStarted SubscribeNewContainers s out →
  (∃ n,
     (λ r, pb_container_values (pbstream.Container r)) <$> fst run
     = container_values <$> take n (SubscribeNewContainers (store s))
     ∧ (snd run = Return None ∧ Context_Done out = true
        ∨ snd run = Hangs ∧ Context_Done out = false
          ∧ (length (SubscribeNewContainers (store s)) ≤ n)%nat))
  ∧ Forall (λ r, pb.Command (pbstream.Container r) = ""%string
                 ∧ pb.Stats (pbstream.Container r) = [])
           (fst run).
Proof.
  intros Hin. apply subscription_loop_runs in Hin as (n & Ht & Hend). split.
  - exists n. split; [|done]. rewrite Ht, <- list_fmap_compose.
    by apply list_fmap_ext.
  - rewrite Ht. apply Forall_fmap, Forall_true. by intros c.
Qed.

(** X22. Once the context of the stream is done, each of the three
    subscription handlers can stop after any number of the published
    values: for every [n] there is a run that has sent the first [n]
    values, or all of them when there are fewer, and returns [nil]. *)
Theorem subscriptions_stop_anywhere (s : server) (out : ServerStream) (n : nat) :
  Context_Done out = true →
  (∃ run, run ∈ StreamEvents SubscribeEvents s out
          ∧ snd run = Return None
          ∧ length (fst run) = (n `min` length (SubscribeEvents (store s)))%nat)
  ∧ (∃ run, run ∈ StreamStats SubscribeStats s out
            ∧ snd run = Return None
            ∧ length (fst run)
              = (n `min` length (SubscribeStats (store s)))%nat)
  ∧ (∃ run, run ∈ StreamContainerStarted SubscribeNewContainers s out
            ∧ snd run = Return None
            ∧ length (fst run)
              = (n `min` length (SubscribeNewContainers (store s)))%nat).
Proof.
  intros Hdone. unfold StreamEvents, StreamStats, StreamContainerStarted.
  rewrite Hdone.
  repeat split; eexists; (split; [apply (subscription_loop_cancel _ _ n)|]);
    simpl; (split; [done|]); by rewrite length_fmap, length_take.
Qed.

End MoreSubscriptions.

Section SubscriptionSamples.
Import agent traces streams.

Lemma StreamEvents_runs_witness :
  ∃ n,
    [("abc123", "start", "localhost")]
    = event_values <$> take n (sample2.published_events (store (sample.srv [])))
    ∧ (@Return error None = Return None
       ∧ Context_Done sample2.cancelled = true
       ∨ @Return error None = Hangs ∧ Context_Done sample2.cancelled = false
         ∧ (length (sample2.published_events (store (sample.srv []))) ≤ n)%nat).
Proof.
  apply (StreamEvents_runs sample2.published_events (sample.srv [])
           sample2.cancelled
           ([pbstream.mkStreamEventsResponse
               (pbstream.mkContainerEvent "abc123" "start" "localhost")],
            Return None)).
  apply list_elem_of_In. vm_compute. tauto.
Defined.

Lemma StreamStats_runs_witness :
  ∃ n,
    [("abc123", 11, 22, 33)]
    = stat_values <$> take n (sample2.published_stats (store (sample.srv [])))
    ∧ (@Hangs error = Return None ∧ Context_Done sample.live = true
       ∨ @Hangs error = Hangs ∧ Context_Done sample.live = false
         ∧ (length (sample2.published_stats (store (sample.srv []))) ≤ n)%nat).
Proof.
  apply (StreamStats_runs sample2.published_stats (sample.srv []) sample.live
           ([pbstream.mkStreamStatsResponse
               (pb.mkContainerStat "abc123" 11 22 33)], Hangs)).
  apply list_elem_of_In. vm_compute. tauto.
Defined.

Lemma StreamContainerStarted_runs_witness :
  ∃ run,
    run ∈ StreamContainerStarted sample2.published_containers (sample.srv [])
            sample.live
    ∧ (pb.container_Id ∘ pbstream.Container) <$> fst run = ["abc123"; "def456"]
    ∧ Forall (λ r, pb.Command (pbstream.Container r) = ""%string
                   ∧ pb.Stats (pbstream.Container r) = [])
             (fst run).
Proof.
  eexists. split; [|split].
  - apply list_elem_of_In. vm_compute. left. reflexivity.
  - reflexivity.
  - apply (StreamContainerStarted_runs sample2.published_containers
             (sample.srv []) sample.live).
    apply list_elem_of_In. vm_compute. left. reflexivity.
Defined.

Lemma subscriptions_stop_anywhere_witness :
  ∃ run,
    run ∈ StreamEvents sample2.published_events (sample.srv [])
            sample2.cancelled
    ∧ snd run = Return None
    ∧ length (fst run) = 1%nat.
Proof.
  apply (subscriptions_stop_anywhere sample2.published_events
           sample2.published_stats sample2.published_containers
           (sample.srv []) sample2.cancelled 1).
  reflexivity.
Defined.

End SubscriptionSamples.

(** ** Further properties: the container of the front end *)

Section SwarmNames.
Import web.

Lemma is_alnum_alnum (c : N) : is_alnum c = true ↔ alnum c.
Proof.
  unfold is_alnum, alnum.
  rewrite !orb_true_iff, !andb_true_iff, !N.leb_le. tauto.
Qed.

Lemma groups_from_shape (need : nat) (l : jsstring) :
  groups_from need l = true →
  ∃ body gs, length body = need ∧ Forall alnum body ∧ Forall group gs
             ∧ l = body ++ concat gs.
Proof.
  revert need. induction l as [|c l IH]; intros need; simpl.
  - intros ->%bool_decide_eq_true. by exists [], [].
  - destruct need as [|need]; intros [Hc Hl]%andb_prop;
      destruct (IH _ Hl) as (body & gs & Hlen & Hbody & Hgs & ->).
    + apply N.eqb_eq in Hc as ->.
      exists [], ((46%N :: body) :: gs). repeat split; try done.
      constructor; [by exists body|done].
    + exists (c :: body), gs. simpl. repeat split; try done; [lia|].
      constructor; [by apply is_alnum_alnum|done].
Qed.

Lemma groups_from_body (body rest : jsstring) :
  Forall alnum body →
  groups_from (length body) (body ++ rest) = groups_from 0 rest.
Proof.
  induction 1 as [|c body Hc _ IH]; [done|]. simpl.
  apply is_alnum_alnum in Hc. by rewrite Hc, IH.
Qed.

Lemma groups_from_groups (gs : list jsstring) :
  Forall group gs → groups_from 0 (concat gs) = true.
Proof.
  induction 1 as [|g gs (body & -> & Hlen & Hbody) _ IH]; [done|].
  simpl. rewrite <- Hlen at 1. by rewrite groups_from_body.
Qed.

Lemma SWARM_ID_REGEX_at_groups (l : jsstring) :
  SWARM_ID_REGEX_at l = true ↔ groups l.
Proof.
  split.
  - destruct l as [|c l]; [discriminate|]. simpl.
    intros [->%N.eqb_eq Hl]%andb_prop.
    destruct (groups_from_shape _ _ Hl) as (body & gs & Hlen & Hbody & Hgs & ->).
    exists (46%N :: body), gs. repeat split; try done. by exists body.
  - intros (g & gs & (body & -> & Hlen & Hbody) & Hgs & ->). simpl.
    rewrite <- Hlen at 1. rewrite groups_from_body by done.
    by apply groups_from_groups.
Qed.

Lemma groups_length (l : jsstring) : groups l → (26 ≤ length l)%nat.
Proof.
  intros (g & gs & (body & -> & Hlen & _) & _ & ->).
  simpl. rewrite length_app. lia.
Qed.

Lemma suffix_of_cons (q name : jsstring) (c : N) :
  q `suffix_of` c :: name → q = c :: name ∨ q `suffix_of` name.
Proof.
  intros [ [|c' k] Hk]; simpl in Hk.
  - by left.
  - right. exists k. by injection Hk.
Qed.

Lemma SWARM_ID_REGEX_match_Some (name swarm : jsstring) :
  SWARM_ID_REGEX_match name = Some swarm →
  swarm `suffix_of` name
  ∧ SWARM_ID_REGEX_at swarm = true
  ∧ ∀ q, q `suffix_of` name → SWARM_ID_REGEX_at q = true → q `suffix_of` swarm.
Proof.
  induction name as [|c name IH].
  - simpl. discriminate.
  - cbn [SWARM_ID_REGEX_match].
    destruct (SWARM_ID_REGEX_at (c :: name)) eqn:Hat.
    + intros [= <-]. done.
    + intros Hm. destruct (IH Hm) as (Hsuf & Hswarm & Hlong).
      split; [by apply suffix_cons_r|]. split; [done|].
      intros q [->|Hq]%suffix_of_cons Hq'; [congruence|by apply Hlong].
Qed.

Lemma SWARM_ID_REGEX_match_None (name : jsstring) :
  SWARM_ID_REGEX_match name = None →
  ∀ q, q `suffix_of` name → SWARM_ID_REGEX_at q = false.
Proof.
  induction name as [|c name IH].
  - intros _ q ->%suffix_nil_inv. reflexivity.
  - cbn [SWARM_ID_REGEX_match].
    destruct (SWARM_ID_REGEX_at (c :: name)) eqn:Hat; [discriminate|].
    intros Hm q [->|Hq]%suffix_of_cons; [done|by apply IH].
Qed.

(** [replace_first] takes out the occurrence that starts first. *)
Lemma replace_first_occurrence (s pat p q : jsstring) :
  s = p ++ pat ++ q →
  ∃ p' q', s = p' ++ pat ++ q' ∧ replace_first s pat = p' ++ q'
           ∧ ∀ p2 q2, s = p2 ++ pat ++ q2 → (length p' ≤ length p2)%nat.
Proof.
  revert p. induction s as [|c s IH]; intros p Hs.
  - destruct p, pat; try discriminate. exists [], []. repeat split.
    intros; simpl; lia.
  - cbn [replace_first]. case_bool_decide as Hprefix.
    + destruct Hprefix as [k Hk]. exists [], k. rewrite Hk. simpl.
      rewrite drop_app_length. repeat split. intros; lia.
    + destruct p as [|c' p].
      * exfalso. apply Hprefix. exists q. by rewrite Hs.
      * injection Hs as -> Hs.
        destruct (IH p Hs) as (p' & q' & Hs' & Hr & Hfirst).
        exists (c' :: p'), q'. simpl. rewrite Hr, <- Hs'.
        repeat split. intros [|c2 p2] q2 H2.
        -- exfalso. apply Hprefix. exists q2. by rewrite H2.
        -- injection H2 as _ H2. simpl. apply Hfirst in H2. lia.
Qed.

(** X23. What [SWARM_ID_REGEX] finds in a name. A match is an end of the
    name that consists of groups, each a full stop and 25 letters or
    digits, and it is the longest such end: every end of the name that
    consists of groups lies within it. There is no match exactly when no
    end of the name consists of groups. *)
Theorem SWARM_ID_REGEX_match_longest (name : jsstring) :
  match SWARM_ID_REGEX_match name with
  | Some swarm =>
      swarm `suffix_of` name
      ∧ groups swarm
      ∧ ∀ q, q `suffix_of` name → groups q → q `suffix_of` swarm
  | None => ∀ q, q `suffix_of` name → ¬ groups q
  end.
Proof.
  destruct (SWARM_ID_REGEX_match name) as [swarm|] eqn:Hm.
  - destruct (SWARM_ID_REGEX_match_Some _ _ Hm) as (Hsuf & Hat & Hlong).
    split; [done|]. split; [by apply SWARM_ID_REGEX_at_groups|].
    intros q Hq Hgroups. apply Hlong; [done|].
    by apply SWARM_ID_REGEX_at_groups.
  - intros q Hq Hgroups%SWARM_ID_REGEX_at_groups.
    by rewrite (SWARM_ID_REGEX_match_None _ Hm q Hq) in Hgroups.
Qed.

Lemma SWARM_ID_REGEX_match_longest_witness :
  (js ".k3v9xq0t2m7c1a8b4z6y5w0nd" `suffix_of` task_name
   ∧ groups (js ".k3v9xq0t2m7c1a8b4z6y5w0nd"))
  ∧ ∀ q, q `suffix_of` js "web.1" → ¬ groups q.
Proof.
  split.
  - split.
    + apply (SWARM_ID_REGEX_match_longest task_name).
    + apply (SWARM_ID_REGEX_match_longest task_name).
  - apply (SWARM_ID_REGEX_match_longest (js "web.1")).
Defined.

(** X24. What the constructor makes of a name. The container is a swarm
    container exactly when the name ends with a swarm identifier, that
    is, when some end of the name consists of groups of a full stop and
    25 letters or digits, which takes a name of 26 characters at least;
    otherwise the name is kept. For a swarm container, the identifier kept
    is an end of the name given, and the name kept is the name given with
    the first occurrence of the identifier taken out, which need not be
    the one at the end; when the identifier occurs at the end only, the
    name kept is the name given without its end. The other arguments are
    kept as they are and the stat starts at zero. *)
Theorem new_Container_swarm (cid : jsstring) (ccreated : Z)
    (cimage cname ccommand chost : jsstring)
    (clabels : list (jsstring * jsstring)) (cstatus cstate : jsstring)
    (cstats : list Stat) (chealth : option jsstring) :
  let c := new_Container cid ccreated cimage cname ccommand chost clabels
             cstatus cstate cstats chealth in
  (isSwarm c = true ↔ swarmId c ≠ None)
  ∧ (isSwarm c = true ↔ ∃ q, q `suffix_of` cname ∧ groups q)
  ∧ (isSwarm c = true → (26 ≤ length cname)%nat)
  ∧ (isSwarm c = false → name c = cname)
  ∧ (∀ swarm, swarmId c = Some swarm →
       swarm `suffix_of` cname
       ∧ (length (name c) + length swarm = length cname)%nat
       ∧ (∃ p q, cname = p ++ swarm ++ q ∧ name c = p ++ q
                 ∧ ∀ p2 q2, cname = p2 ++ swarm ++ q2 →
                            (length p ≤ length p2)%nat)
       ∧ ((∀ p2 q2, cname = p2 ++ swarm ++ q2 → q2 = []) →
          cname = name c ++ swarm))
  ∧ (id c, created c, image c, command c, host c, labels c, status c,
     state c, health c, initial_stats c)
    = (cid, ccreated, cimage, ccommand, chost, clabels, cstatus, cstate,
       chealth, cstats)
  ∧ stat c = mkStat 0 0 0.
Proof.
  intros c. subst c. unfold new_Container.
  destruct (SWARM_ID_REGEX_match cname) as [swarm|] eqn:Hm; simpl.
  - destruct (SWARM_ID_REGEX_match_Some _ _ Hm) as (Hsuf & Hat & Hlong).
    apply SWARM_ID_REGEX_at_groups in Hat.
    pose proof (groups_length _ Hat) as Hswarm.
    pose proof (suffix_length _ _ Hsuf) as Hlen.
    pose proof Hsuf as [p Hp].
    destruct (replace_first_occurrence cname swarm p [])
      as (p' & q' & Hs & Hr & Hfirst); [by rewrite app_nil_r|].
    split; [by split|].
    split; [split; [intros _; by exists swarm|done] |].
    split; [intros _; lia|].
    split; [discriminate|]. split; [|done].
    intros ? [= <-]. split; [done|]. split; [|split].
    + rewrite Hr. rewrite Hs. rewrite !length_app. lia.
    + by exists p', q'.
    + intros Hend. rewrite Hr. rewrite (Hend _ _ Hs) in Hs |- *.
      by rewrite !app_nil_r in *.
  - pose proof (SWARM_ID_REGEX_match_None _ Hm) as Hnone.
    split; [split; [discriminate|done] |].
    split.
    { split; [discriminate|].
      intros (q & Hq & Hat%SWARM_ID_REGEX_at_groups).
      by rewrite (Hnone q Hq) in Hat. }
    split; [discriminate|]. split; [done|]. split; [discriminate|done].
Qed.

Lemma new_Container_swarm_witness : (26 ≤ length task_name)%nat.
Proof.
  apply (proj1 (proj2 (proj2 (new_Container_swarm (js "abc123") 0
    (js "nginx") task_name (js "nginx") (js "localhost") [] (js "Up")
    (js "running") [] None)))).
  reflexivity.
Defined.

End SwarmNames.
